(** * Spatial batch normalisation, backward pass (CPU)

    A shallow embedding of [SpatialBNGradientOp<CPUContext>::RunOnDevice]
    from [caffe2/operators/spatial_batch_norm_gradient_op.cc], and the
    properties of it that the specification states.

    The operator reads five input blobs, resizes and writes three output
    blobs, and walks the activation either block by block (NCHW) or
    position by position (NHWC) through column-major Eigen maps. *)

From Stdlib Require Import ZArith Lia Ring String.
From Stdlib Require Import QArith Qcanon.
From Stdlib Require Import Floats.SpecFloat.
From stdpp Require Import base list.

(** ** Scalars

    The source computes in [float].  The embedding is written over a type
    [F] with the operations the operator uses; [of_int] is the conversion
    that C++ applies when an [int] meets a [float] array. *)

Class Arith (F : Type) := {
  fzero : F;
  fone : F;
  fadd : F -> F -> F;
  fsub : F -> F -> F;
  fmul : F -> F -> F;
  fdiv : F -> F -> F;
  fopp : F -> F;
  of_int : Z -> F
}.

Declare Scope arith_scope.
Delimit Scope arith_scope with F.
Notation "x + y" := (fadd x y) : arith_scope.
Notation "x - y" := (fsub x y) : arith_scope.
Notation "x * y" := (fmul x y) : arith_scope.
Notation "x / y" := (fdiv x y) : arith_scope.
Notation "0" := fzero : arith_scope.

(** Exact arithmetic: the scalars form a commutative ring and [of_int] is
    multiplicative.  The algebraic statements of the specification are read
    in such a structure; rounding is outside of it. *)
Class ExactArith (F : Type) `{Arith F} : Prop := {
  exact_ring : ring_theory fzero fone fadd fmul fsub fopp (@eq F);
  of_int_mul : forall a b : Z, of_int (a * b) = (of_int a * of_int b)%F
}.

(** IEEE-754 binary32, the [float] of the source, with round to nearest
    even as [SpecFloat] implements it. *)
Module Binary32.
Definition prec : Z := 24.
Definition emax : Z := 128.
Definition float : Type := spec_float.
Definition of_Z (z : Z) : float := binary_normalize prec emax z 0 false.

#[global] Instance arith : Arith float := {|
  fzero := S754_zero false;
  fone := of_Z 1;
  fadd := SFadd prec emax;
  fsub := SFsub prec emax;
  fmul := SFmul prec emax;
  fdiv := SFdiv prec emax;
  fopp := SFopp;
  of_int := of_Z
|}.
End Binary32.

(** The rationals in canonical form: an exact instance that computes. *)
Module Rational.
#[global] Instance arith : Arith Qc := {|
  fzero := Q2Qc 0;
  fone := Q2Qc 1;
  fadd := Qcplus;
  fsub := Qcminus;
  fmul := Qcmult;
  fdiv := Qcdiv;
  fopp := Qcopp;
  of_int := fun z => Q2Qc (inject_Z z)
|}.
End Rational.

(** ** Machine integers

    [N], [C], [H] and [W] are C++ [int]; products of them are taken in
    32-bit two's complement. *)
Definition INT_MAX : Z := 2147483647.

Definition wrap_int (z : Z) : Z := ((z + 2 ^ 31) mod 2 ^ 32 - 2 ^ 31)%Z.

Definition imul (a b : Z) : Z := wrap_int (a * b).

(** ** Tensors and the operator's blobs *)

(** [UNKNOWN] stands for every value of the layout tag other than the two
    the operator handles. *)
Inductive StorageOrder := UNKNOWN | NHWC | NCHW.

Definition is_NCHW (o : StorageOrder) : bool :=
  match o with NCHW => true | _ => false end.

(** A tensor: its extents and its elements in storage order.  The number of
    elements a tensor holds ([size_] in the source) is the length of
    [data]. *)
Record Tensor (F : Type) := mkTensor { dims : list nat; data : list F }.
Arguments mkTensor {F} _ _.
Arguments dims {F} _.
Arguments data {F} _.

Definition ndim {F} (t : Tensor F) : nat := length (dims t).

(** Number of elements of a shape. *)
Definition numel (ds : list nat) : nat := foldr Nat.mul 1 ds.

(** [dim32 i]: the [i]-th extent as an [int]; reading past the shape is an
    out-of-bounds access.  Extents are taken to fit an [int]. *)
Definition dim32 {F} (t : Tensor F) (i : nat) : option Z :=
  Z.of_nat <$> dims t !! i.

(** The blobs of one operator instance, named by their tags.  The schema
    ([NumInputs(5).NumOutputs(3)], no in-place option) keeps the output
    blobs apart from the input blobs, so they are separate fields.
    [quotients] is an observer: it counts how many coefficients of the lazy
    expression [scaleInvVarNHW] have been evaluated, each of which is one
    division by [N * H * W]. *)
Record OpState (F : Type) := mkOpState {
  INPUT : Tensor F;
  SCALE : Tensor F;
  OUTPUT_GRAD : Tensor F;
  SAVED_MEAN : Tensor F;
  SAVED_INV_VAR : Tensor F;
  INPUT_GRAD : Tensor F;
  SCALE_GRAD : Tensor F;
  BIAS_GRAD : Tensor F;
  quotients : nat
}.
Arguments mkOpState {F} _ _ _ _ _ _ _ _ _.
Arguments INPUT {F} _.
Arguments SCALE {F} _.
Arguments OUTPUT_GRAD {F} _.
Arguments SAVED_MEAN {F} _.
Arguments SAVED_INV_VAR {F} _.
Arguments INPUT_GRAD {F} _.
Arguments SCALE_GRAD {F} _.
Arguments BIAS_GRAD {F} _.
Arguments quotients {F} _.

(** The five inputs of a state, for frame statements. *)
Definition inputs_of {F} (st : OpState F) :=
  (INPUT st, SCALE st, OUTPUT_GRAD st, SAVED_MEAN st, SAVED_INV_VAR st).

(** How a call of [RunOnDevice] ends.  [CheckFailed] is a failed
    [DCHECK_EQ] (the specification's ShapeMismatch), [Thrown] the exception
    of [CAFFE_THROW] (its UnsupportedLayout); both carry the blobs as they
    are at that moment.  [Undefined] is an access outside a buffer. *)
Inductive Outcome (F : Type) :=
| Returned (result : bool) (st : OpState F)
| CheckFailed (st : OpState F)
| Thrown (msg : string) (st : OpState F)
| Undefined.
Arguments Returned {F} _ _.
Arguments CheckFailed {F} _.
Arguments Thrown {F} _ _.
Arguments Undefined {F}.

#[global] Instance arith_inhabited {F} `{Arith F} : Inhabited F :=
  populate fzero.

(** ** Loops *)

(** [for (int i = 0; i < n; ++i) body], where an iteration may step outside
    a buffer. *)
Fixpoint for_each {S : Type} (body : nat -> S -> option S)
    (idx : list nat) (s : S) : option S :=
  match idx with
  | [] => Some s
  | i :: rest =>
      match body i s with
      | Some s' => for_each body rest s'
      | None => None
      end
  end.

Definition for_loop {S : Type} (n : nat) (body : nat -> S -> option S)
    (s : S) : option S :=
  for_each body (seq 0 n) s.

Section Eigen.
Context {F : Type} {arith : Arith F}.

(** Coefficient [(r, j)] of a column-major map with [rows] rows. *)
Definition coeff (buf : list F) (rows r j : nat) : F :=
  buf !!! (j * rows + r).

(** [.col(j)] of such a map, coefficient by coefficient. *)
Definition col (buf : list F) (rows j : nat) : list F :=
  (fun r => coeff buf rows r j) <$> seq 0 rows.

(** Row [r] of a map with [cols] columns. *)
Definition row (buf : list F) (rows cols r : nat) : list F :=
  (fun j => coeff buf rows r j) <$> seq 0 cols.

(** [.sum()]: Eigen's scalar reduction starts from the first coefficient
    and adds the others in index order; an empty reduction is zero.  (A
    vectorised build adds in another order, which exact arithmetic does not
    see.) *)
Definition esum (l : list F) : F :=
  match l with
  | [] => 0%F
  | x :: t => fold_left fadd t x
  end.

(** Column [j] lies inside the buffer (an empty column touches
    nothing). *)
Definition col_ok (buf : list F) (rows j : nat) : bool :=
  (rows =? 0) || ((j + 1) * rows <=? length buf).

(** Index [c] lies inside the buffer. *)
Definition at_ok (buf : list F) (c : nat) : bool := c <? length buf.

(** A map of [n] coefficients lies inside the buffer. *)
Definition map_ok (buf : list F) (n : nat) : bool := n <=? length buf.

(** [.setZero()] on a map of [n] coefficients over [buf]. *)
Definition setZero (n : nat) (buf : list F) : option (list F) :=
  if map_ok buf n then Some (replicate n 0%F ++ drop n buf) else None.

(** Contents of storage that has been allocated and not yet written:
    [uninit slot i] is whatever is found at offset [i] of the storage of
    output [slot]. *)
Variable uninit : nat -> nat -> F.

(** [dst->ResizeLike(src)]: the shape is copied; the elements are kept
    when the element count does not change, otherwise the storage is
    dropped and the next [mutable_data] allocates it afresh.  Allocation is
    taken to succeed, for an empty tensor too. *)
Definition ResizeLike (slot : nat) (dst src : Tensor F) : Tensor F :=
  if numel (dims src) =? length (data dst)
  then mkTensor (dims src) (data dst)
  else mkTensor (dims src) (uninit slot <$> seq 0 (numel (dims src))).

End Eigen.

(** ** The two traversals *)

Section Kernels.
Context {F : Type} {arith : Arith F}.

(** The storage behind [X_arr], [dY_arr], [scale_arr], [mean_arr] and
    [inv_var_arr], and the four extents. *)
Variables X dY scale mean inv_var : list F.
Variables N C H W : Z.

(** [N * H * W] as the [int] expression of the source. *)
Definition NHW : Z := imul (imul N H) W.

(** Coefficient [c] of [scaleInvVarNHW = scale_arr * inv_var_arr /
    (N * H * W)]; the expression is lazy, a coefficient is computed when
    it is asked for. *)
Definition scaleInvVarNHW (c : nat) : F :=
  (scale !!! c * inv_var !!! c / of_int NHW)%F.

(** *** NCHW: maps of [H * W] rows and [N * C] columns *)

Definition rows_NCHW : nat := Z.to_nat (imul H W).
Definition cols_NCHW : nat := Z.to_nat (imul N C).

(** [int c = nc % C] *)
Definition channel (nc : nat) : nat := nc mod Z.to_nat C.

(** First loop (lines 51 to 57).  The body reads column [nc] of [X_arr]
    and [dY_arr] and entry [c] of the per-channel maps; [reduce_ok] says
    that all of this lies inside the buffers, [reduce_step] is the body. *)
Definition reduce_ok (nc : nat) (acc : list F * list F) : bool :=
  let c := channel nc in
  col_ok dY rows_NCHW nc && col_ok X rows_NCHW nc
  && at_ok mean c && at_ok inv_var c
  && at_ok acc.1 c && at_ok acc.2 c.

Definition reduce_step (nc : nat) (acc : list F * list F)
    : list F * list F :=
  let c := channel nc in
  let rows := rows_NCHW in
  (<[c := (acc.1 !!! c + esum (col dY rows nc))%F]> acc.1,
   <[c := (acc.2 !!! c
            + esum ((fun i => (coeff X rows i nc - mean !!! c)
                              * inv_var !!! c * coeff dY rows i nc)
                    <$> seq 0 rows))%F]> acc.2).

Definition reduce_block (nc : nat) (acc : list F * list F)
    : option (list F * list F) :=
  if reduce_ok nc acc then Some (reduce_step nc acc) else None.

(** Second loop (lines 58 to 63): [dBias] and [dScale] are the finished
    accumulators; the state is the storage of [dX] and the count of
    quotients.  [scaleInvVarNHW(c)] is asked for once in each round, whatever
    the length of the column. *)
Definition propagate_ok (dBias dScale : list F) (nc : nat)
    (s : list F * nat) : bool :=
  let c := channel nc in
  at_ok scale c && at_ok inv_var c && at_ok dBias c && at_ok mean c
  && at_ok dScale c
  && col_ok dY rows_NCHW nc && col_ok X rows_NCHW nc
  && col_ok s.1 rows_NCHW nc.

Definition propagate_step (dBias dScale : list F) (nc : nat)
    (s : list F * nat) : list F * nat :=
  let c := channel nc in
  let rows := rows_NCHW in
  let k := scaleInvVarNHW c in
  (list_inserts (nc * rows)
     ((fun i => (coeff s.1 rows i nc
                 + k * (coeff dY rows i nc * of_int N * of_int H * of_int W
                        - dBias !!! c
                        - (coeff X rows i nc - mean !!! c)
                          * dScale !!! c * inv_var !!! c))%F)
      <$> seq 0 rows) s.1,
   S s.2).

Definition propagate_block (dBias dScale : list F) (nc : nat)
    (s : list F * nat) : option (list F * nat) :=
  if propagate_ok dBias dScale nc s
  then Some (propagate_step dBias dScale nc s) else None.

(** *** NHWC: maps of [C] rows and [N * H * W] columns *)

Definition rows_NHWC : nat := Z.to_nat C.
Definition cols_NHWC : nat := Z.to_nat NHW.

(** Coefficient [c] of [dY_arr.rowwise().sum()]. *)
Definition dYRowSum (c : nat) : F := esum (row dY rows_NHWC cols_NHWC c).

(** Coefficient [(c, j)] of [X_arr.colwise() - mean_arr]. *)
Definition XMinusMean (c j : nat) : F :=
  (coeff X rows_NHWC c j - mean !!! c)%F.

(** Coefficient [c] of [(dY_arr * XMinusMean).rowwise().sum()]. *)
Definition dYMulXMinusMeanRowSum (c : nat) : F :=
  esum ((fun j => (coeff dY rows_NHWC c j * XMinusMean c j)%F)
        <$> seq 0 cols_NHWC).

(** Coefficient [c] of [inv_var_arr * inv_var_arr]. *)
Definition invVarSqr (c : nat) : F := (inv_var !!! c * inv_var !!! c)%F.

(** A map of [rows] by [cols] coefficients, read in full. *)
Definition mat_ok (buf : list F) (rows cols : nat) : bool :=
  (rows =? 0) || (rows * cols <=? length buf).

(** The single loop (lines 76 to 83); its state is the storage of [dBias],
    [dScale] and [dX] and the count of quotients.  The row sums of lines 72
    and 74 are lazy and read the whole of [dY_arr] and [X_arr] when a
    coefficient of the assignment to [dX_arr.col(nhw)] is computed; each of
    the [C] coefficients takes one quotient. *)
Definition position_ok (nhw : nat) (s : list F * list F * list F * nat)
    : bool :=
  let '(dBias, dScale, dX, _) := s in
  let rows := rows_NHWC in
  map_ok mean rows && map_ok inv_var rows && map_ok scale rows
  && map_ok dBias rows && map_ok dScale rows
  && col_ok dY rows nhw && col_ok X rows nhw && col_ok dX rows nhw
  && mat_ok dY rows cols_NHWC && mat_ok X rows cols_NHWC.

Definition position_step (nhw : nat) (s : list F * list F * list F * nat)
    : list F * list F * list F * nat :=
  let '(dBias, dScale, dX, q) := s in
  let rows := rows_NHWC in
  (list_inserts 0
     ((fun c => (dBias !!! c + coeff dY rows c nhw)%F) <$> seq 0 rows)
     dBias,
   list_inserts 0
     ((fun c => (dScale !!! c
                 + (coeff X rows c nhw - mean !!! c) * inv_var !!! c
                   * coeff dY rows c nhw)%F) <$> seq 0 rows)
     dScale,
   list_inserts (nhw * rows)
     ((fun c => (coeff dX rows c nhw
                 + scaleInvVarNHW c
                   * (coeff dY rows c nhw * of_int N * of_int H * of_int W
                      - dYRowSum c
                      - XMinusMean c nhw * invVarSqr c
                        * dYMulXMinusMeanRowSum c))%F) <$> seq 0 rows)
     dX,
   q + rows).

Definition position_block (nhw : nat) (s : list F * list F * list F * nat)
    : option (list F * list F * list F * nat) :=
  if position_ok nhw s then Some (position_step nhw s) else None.

End Kernels.

(** ** The operator *)

Section Operator.
Context {F : Type} {arith : Arith F}.

Variable uninit : nat -> nat -> F.

(** Whether [DCHECK_EQ] is compiled in (a debug build) or expands to
    nothing. *)
Variable dchecks : bool.

Variable order_ : StorageOrder.

(** The state with its outputs and count replaced. *)
Definition with_outputs (st : OpState F) (dX dScale dBias : Tensor F)
    (q : nat) : OpState F :=
  mkOpState (INPUT st) (SCALE st) (OUTPUT_GRAD st) (SAVED_MEAN st)
    (SAVED_INV_VAR st) dX dScale dBias q.

(** Lines 24 to 40: the outputs are resized, then the first [C] entries
    of [dBias] and [dScale] are cleared. *)
Definition prepare (C : Z) (st : OpState F) : option (OpState F) :=
  let dX := ResizeLike uninit 0 (INPUT_GRAD st) (INPUT st) in
  let dScale := ResizeLike uninit 1 (SCALE_GRAD st) (SCALE st) in
  let dBias := ResizeLike uninit 2 (BIAS_GRAD st) (SCALE st) in
  dBias_buf ← setZero (Z.to_nat C) (data dBias);
  dScale_buf ← setZero (Z.to_nat C) (data dScale);
  Some (with_outputs st dX (mkTensor (dims dScale) dScale_buf)
          (mkTensor (dims dBias) dBias_buf) (quotients st)).

(** [case StorageOrder::NCHW], lines 45 to 65. *)
Definition run_NCHW (N C H W : Z) (st : OpState F) : option (OpState F) :=
  let X := data (INPUT st) in
  let dY := data (OUTPUT_GRAD st) in
  let scale := data (SCALE st) in
  let mean := data (SAVED_MEAN st) in
  let inv_var := data (SAVED_INV_VAR st) in
  let cols := cols_NCHW N C in
  dX0 ← setZero (rows_NCHW H W * cols) (data (INPUT_GRAD st));
  acc ← for_loop cols (reduce_block X dY mean inv_var C H W)
          (data (BIAS_GRAD st), data (SCALE_GRAD st));
  s ← for_loop cols
        (propagate_block X dY scale mean inv_var N C H W acc.1 acc.2)
        (dX0, quotients st);
  Some (with_outputs st
          (mkTensor (dims (INPUT_GRAD st)) s.1)
          (mkTensor (dims (SCALE_GRAD st)) acc.2)
          (mkTensor (dims (BIAS_GRAD st)) acc.1) s.2).

(** [case StorageOrder::NHWC], lines 66 to 85. *)
Definition run_NHWC (N C H W : Z) (st : OpState F) : option (OpState F) :=
  let X := data (INPUT st) in
  let dY := data (OUTPUT_GRAD st) in
  let scale := data (SCALE st) in
  let mean := data (SAVED_MEAN st) in
  let inv_var := data (SAVED_INV_VAR st) in
  let cols := cols_NHWC N H W in
  dX0 ← setZero (rows_NHWC C * cols) (data (INPUT_GRAD st));
  s ← for_loop cols (position_block X dY scale mean inv_var N C H W)
        (data (BIAS_GRAD st), data (SCALE_GRAD st), dX0, quotients st);
  Some (with_outputs st
          (mkTensor (dims (INPUT_GRAD st)) s.1.2)
          (mkTensor (dims (SCALE_GRAD st)) s.1.1.2)
          (mkTensor (dims (BIAS_GRAD st)) s.1.1.1) s.2).

(** The [switch] of lines 44 to 88 and the [return true] after it. *)
Definition switch_order (N C H W : Z) (st : OpState F) : Outcome F :=
  match order_ with
  | NCHW =>
      match run_NCHW N C H W st with
      | Some st' => Returned true st'
      | None => Undefined
      end
  | NHWC =>
      match run_NHWC N C H W st with
      | Some st' => Returned true st'
      | None => Undefined
      end
  | UNKNOWN => Thrown "Unknown storage order: " st
  end.

(** [t.dim32(i) == n] *)
Definition dim_is {A} (t : Tensor A) (i : nat) (n : Z) : bool :=
  match dim32 t i with
  | Some d => (d =? n)%Z
  | None => false
  end.

(** The whole of [RunOnDevice]: the checks and extents of lines 11 to 17,
    then [prepare], then the [switch]. *)
Definition RunOnDevice (st : OpState F) : Outcome F :=
  let X := INPUT st in
  let scale := SCALE st in
  if dchecks && negb (ndim X =? 4) then CheckFailed st else
  match dim32 X 0, dim32 X 1, dim32 X 2, dim32 X 3 with
  | Some d0, Some d1, Some d2, Some d3 =>
      let N := d0 in
      let C := if is_NCHW order_ then d1 else d3 in
      let H := if is_NCHW order_ then d2 else d1 in
      let W := if is_NCHW order_ then d3 else d2 in
      if dchecks && negb (ndim scale =? 1) then CheckFailed st else
      if dchecks && negb (dim_is scale 0 C) then CheckFailed st else
      match prepare C st with
      | Some st1 => switch_order N C H W st1
      | None => Undefined
      end
  | _, _, _, _ => Undefined
  end.

End Operator.

(** * Vocabulary of the statements *)


(** The three outputs of a state. *)
Definition outputs_of {F} (st : OpState F) :=
  (INPUT_GRAD st, SCALE_GRAD st, BIAS_GRAD st).

(** [out] is a normal return with these three output buffers. *)
Definition yields {F : Type} (out : Outcome F)
    (biasGrad scaleGrad inputGrad : list F) : Prop :=
  exists st', out = Returned true st'
              /\ data (BIAS_GRAD st') = biasGrad
              /\ data (SCALE_GRAD st') = scaleGrad
              /\ data (INPUT_GRAD st') = inputGrad.

(** ** Shapes *)

(** The shape of an activation of logical extents [(N, C, H, W)] in each
    layout; an unrecognised tag is read like NHWC by lines 13 to 15. *)
Definition layout_dims (o : StorageOrder) (N C H W : nat) : list nat :=
  if is_NCHW o then [N; C; H; W] else [N; H; W; C].

(** Storage offset of the logical element [(n, c, h, w)]. *)
Definition offset (o : StorageOrder) (C H W n c h w : nat) : nat :=
  if is_NCHW o
  then ((n * C + c) * H + h) * W + w
  else ((n * H + h) * W + w) * C + c.

(** The inputs a caller hands over for logical extents [(N, C, H, W)]:
    a rank-4 activation, an output gradient with as many elements,
    per-channel vectors of length [C], and counts that fit an [int]. *)
Record WellFormed {F : Type} (o : StorageOrder) (N C H W : nat)
    (st : OpState F) : Prop := {
  wf_X_dims : dims (INPUT st) = layout_dims o N C H W;
  wf_X_data : length (data (INPUT st)) = N * C * H * W;
  wf_dY_data : length (data (OUTPUT_GRAD st)) = N * C * H * W;
  wf_scale_dims : dims (SCALE st) = [C];
  wf_scale_data : length (data (SCALE st)) = C;
  wf_mean_data : length (data (SAVED_MEAN st)) = C;
  wf_inv_var_data : length (data (SAVED_INV_VAR st)) = C;
  wf_NHW : (Z.of_nat (N * H * W) <= INT_MAX)%Z;
  wf_NC : (Z.of_nat (N * C) <= INT_MAX)%Z;
  wf_HW : (Z.of_nat (H * W) <= INT_MAX)%Z
}.

(** ** The formulas of the specification *)

(** [big_sum n f] is [f 0 + ... + f (n - 1)]. *)
Fixpoint big_sum {F : Type} {arith : Arith F} (n : nat) (f : nat -> F) : F :=
  match n with
  | 0 => 0%F
  | S k => (big_sum k f + f k)%F
  end.

Section Formulas.
Context {F : Type} {arith : Arith F}.
Variable o : StorageOrder.
Variables N C H W : nat.
Variables X dY scale mean invStd : list F.

(** Element [(n, c, h, w)] of a tensor stored in layout [o]. *)
Definition elem (buf : list F) (n c h w : nat) : F :=
  buf !!! offset o C H W n c h w.

(** Sum over all [(n, h, w)]. *)
Definition sum_nhw (f : nat -> nat -> nat -> F) : F :=
  big_sum N (fun n => big_sum H (fun h => big_sum W (fun w => f n h w))).

Definition biasGrad_spec (c : nat) : F :=
  sum_nhw (fun n h w => elem dY n c h w).

Definition scaleGrad_spec (c : nat) : F :=
  sum_nhw (fun n h w =>
             ((elem X n c h w - mean !!! c) * invStd !!! c
              * elem dY n c h w)%F).

Definition inputGrad_spec (biasGrad scaleGrad : list F) (n c h w : nat) : F :=
  let NHW := of_int (Z.of_nat (N * H * W)) in
  (scale !!! c * invStd !!! c / NHW
   * (elem dY n c h w * NHW - biasGrad !!! c
      - (elem X n c h w - mean !!! c) * invStd !!! c * scaleGrad !!! c))%F.
End Formulas.

(** What a completed call leaves behind, in the words of the
    specification. *)
Record Computed {F : Type} {arith : Arith F} (o : StorageOrder)
    (N C H W : nat) (st st' : OpState F) : Prop := {
  done_inputs : inputs_of st' = inputs_of st;
  done_dX_dims : dims (INPUT_GRAD st') = dims (INPUT st);
  done_dX_length : length (data (INPUT_GRAD st')) = N * C * H * W;
  done_dScale_dims : dims (SCALE_GRAD st') = [C];
  done_dScale_length : length (data (SCALE_GRAD st')) = C;
  done_dBias_dims : dims (BIAS_GRAD st') = [C];
  done_dBias_length : length (data (BIAS_GRAD st')) = C;
  done_bias : forall c, c < C ->
    data (BIAS_GRAD st') !!! c
    = biasGrad_spec o N C H W (data (OUTPUT_GRAD st)) c;
  done_scale : forall c, c < C ->
    data (SCALE_GRAD st') !!! c
    = scaleGrad_spec o N C H W (data (INPUT st)) (data (OUTPUT_GRAD st))
        (data (SAVED_MEAN st)) (data (SAVED_INV_VAR st)) c;
  done_grad : forall n c h w, n < N -> c < C -> h < H -> w < W ->
    elem o C H W (data (INPUT_GRAD st')) n c h w
    = inputGrad_spec o N C H W (data (INPUT st)) (data (OUTPUT_GRAD st))
        (data (SCALE st)) (data (SAVED_MEAN st)) (data (SAVED_INV_VAR st))
        (data (BIAS_GRAD st')) (data (SCALE_GRAD st')) n c h w
}.

(** ** The loops, unrolled

    What the loops compute when every access is inside its buffer, written
    as folds of the loop bodies. *)

Section Buffers.
Context {F : Type} {arith : Arith F}.

(** Entry [key i] of the buffer receives [val i] more. *)
Definition accumulate (key : nat -> nat) (val : nat -> F)
    (i : nat) (l : list F) : list F :=
  <[key i := (l !!! key i + val i)%F]> l.

(** The entries [off .. off + r - 1] of the buffer are replaced, entry
    [off + i] by [g i] of its old value. *)
Definition vec_update (off r : nat) (g : nat -> F -> F) (l : list F)
    : list F :=
  list_inserts off ((fun i => g i (l !!! (off + i))) <$> seq 0 r) l.

Variable uninit : nat -> nat -> F.

(** The state after line 40. *)
Definition prepared (C : nat) (st : OpState F) : OpState F :=
  with_outputs st
    (ResizeLike uninit 0 (INPUT_GRAD st) (INPUT st))
    (mkTensor [C] (replicate C 0%F))
    (mkTensor [C] (replicate C 0%F))
    (quotients st).
End Buffers.

Section Traces.
Context {F : Type} {arith : Arith F}.
Variables N C H W : nat.
Variable st : OpState F.

Local Abbreviation X := (data (INPUT st)).
Local Abbreviation dY := (data (OUTPUT_GRAD st)).
Local Abbreviation scale := (data (SCALE st)).
Local Abbreviation mean := (data (SAVED_MEAN st)).
Local Abbreviation inv_var := (data (SAVED_INV_VAR st)).
Local Abbreviation zC := (Z.of_nat C).
Local Abbreviation zN := (Z.of_nat N).
Local Abbreviation zH := (Z.of_nat H).
Local Abbreviation zW := (Z.of_nat W).

(** What the first NCHW loop leaves in [dBias] and [dScale]. *)
Definition reduce_all : list F * list F :=
  fold_left
    (fun s nc => reduce_step X dY mean inv_var zC zH zW nc s)
    (seq 0 (N * C)) (replicate C 0%F, replicate C 0%F).

(** What the second NCHW loop leaves in [dX] and in the count. *)
Definition propagate_all (q : nat) : list F * nat :=
  fold_left
    (fun s nc => propagate_step X dY scale mean inv_var zN zC zH zW
                   reduce_all.1 reduce_all.2 nc s)
    (seq 0 (N * C)) (replicate (N * C * H * W) 0%F, q).

(** Entry [c] of [dBias] and of [dScale] after the first NCHW loop. *)
Definition bias_NCHW (c : nat) : F :=
  fold_left (fun a n => (a + esum (col dY (H * W) (n * C + c)))%F)
    (seq 0 N) 0%F.

Definition scale_NCHW (c : nat) : F :=
  fold_left
    (fun a n =>
       (a + esum ((fun i => (coeff X (H * W) i (n * C + c) - mean !!! c)
                            * inv_var !!! c * coeff dY (H * W) i (n * C + c))
                  <$> seq 0 (H * W)))%F)
    (seq 0 N) 0%F.

(** What the NHWC loop leaves in [dBias], [dScale], [dX] and the count. *)
Definition position_all (q : nat) : list F * list F * list F * nat :=
  fold_left
    (fun s nhw => position_step X dY scale mean inv_var zN zC zH zW nhw s)
    (seq 0 (N * H * W))
    (replicate C 0%F, replicate C 0%F, replicate (N * C * H * W) 0%F, q).

(** One round of the NHWC loop on each of the three buffers. *)
Definition bias_round (nhw : nat) (l : list F) : list F :=
  vec_update 0 C (fun c old => (old + coeff dY C c nhw)%F) l.

Definition scale_round (nhw : nat) (l : list F) : list F :=
  vec_update 0 C
    (fun c old => (old + (coeff X C c nhw - mean !!! c) * inv_var !!! c
                         * coeff dY C c nhw)%F) l.

Definition grad_NHWC (nhw c : nat) (old : F) : F :=
  (old + scaleInvVarNHW scale inv_var zN zH zW c
         * (coeff dY C c nhw * of_int zN * of_int zH * of_int zW
            - dYRowSum dY zN zC zH zW c
            - XMinusMean X mean zC c nhw * invVarSqr inv_var c
              * dYMulXMinusMeanRowSum X dY mean zN zC zH zW c))%F.

Definition grad_round (nhw : nat) (l : list F) : list F :=
  vec_update (nhw * C) C (grad_NHWC nhw) l.

(** Entry [c] of [dBias] and of [dScale] after the NHWC loop. *)
Definition bias_NHWC (c : nat) : F :=
  fold_left (fun a j => (a + coeff dY C c j)%F) (seq 0 (N * H * W)) 0%F.

Definition scale_NHWC (c : nat) : F :=
  fold_left
    (fun a j => (a + (coeff X C c j - mean !!! c) * inv_var !!! c
                     * coeff dY C c j)%F)
    (seq 0 (N * H * W)) 0%F.
End Traces.

(** ** Sentences of the specification, as it words them *)

(** A wrong rank, or any per-channel vector whose length is not [C], makes
    the call fail the shape check with the blobs untouched. *)
Definition ShapeMismatch_claim {F : Type} {arith : Arith F}
    (uninit : nat -> nat -> F) (dchecks : bool) (o : StorageOrder)
    (N C H W : nat) (st : OpState F) : Prop :=
  ndim (INPUT st) <> 4
  \/ (dims (INPUT st) = layout_dims o N C H W
      /\ (length (data (SCALE st)) <> C
          \/ length (data (SAVED_MEAN st)) <> C
          \/ length (data (SAVED_INV_VAR st)) <> C)) ->
  RunOnDevice uninit dchecks o st = CheckFailed st.

(** The unrecognised tag is reported and none of the outputs is
    modified. *)
Definition UnsupportedLayout_claim {F : Type} {arith : Arith F}
    (uninit : nat -> nat -> F) (dchecks : bool) (st : OpState F) : Prop :=
  exists msg st',
    RunOnDevice uninit dchecks UNKNOWN st = Thrown msg st'
    /\ outputs_of st' = outputs_of st.


(** ** Concrete inputs *)

(** Five more, which the specification words for every input; they are
    stated here for any scalars, [float] included. *)

(** Every element of [inputGrad] is exactly the value of the formula, at
    the [biasGrad] and [scaleGrad] that the call returns. *)
Definition inputGrad_claim {F : Type} {arith : Arith F}
    (uninit : nat -> nat -> F) (dchecks : bool) (o : StorageOrder)
    (N C H W : nat) (st : OpState F) : Prop :=
  o <> UNKNOWN -> WellFormed o N C H W st ->
  exists st',
    RunOnDevice uninit dchecks o st = Returned true st'
    /\ forall n c h w, n < N -> c < C -> h < H -> w < W ->
         elem o C H W (data (INPUT_GRAD st')) n c h w
         = inputGrad_spec o N C H W (data (INPUT st))
             (data (OUTPUT_GRAD st)) (data (SCALE st))
             (data (SAVED_MEAN st)) (data (SAVED_INV_VAR st))
             (data (BIAS_GRAD st')) (data (SCALE_GRAD st')) n c h w.

(** [biasGrad[c]] and [scaleGrad[c]] are the sums over all [(n, h, w)]. *)
Definition reduction_claim {F : Type} {arith : Arith F}
    (uninit : nat -> nat -> F) (dchecks : bool) (o : StorageOrder)
    (N C H W : nat) (st : OpState F) : Prop :=
  o <> UNKNOWN -> WellFormed o N C H W st ->
  exists st',
    RunOnDevice uninit dchecks o st = Returned true st'
    /\ forall c, c < C ->
         data (BIAS_GRAD st') !! c
         = Some (biasGrad_spec o N C H W (data (OUTPUT_GRAD st)) c)
         /\ data (SCALE_GRAD st') !! c
            = Some (scaleGrad_spec o N C H W (data (INPUT st))
                      (data (OUTPUT_GRAD st)) (data (SAVED_MEAN st))
                      (data (SAVED_INV_VAR st)) c).

(** One logical tensor in the two layouts gives the same sum over channels
    of [scaleGrad] and of [biasGrad]. *)
Definition layout_claim {F : Type} {arith : Arith F}
    (uninit1 uninit2 : nat -> nat -> F) (dchecks1 dchecks2 : bool)
    (N C H W : nat) (st1 st2 : OpState F) : Prop :=
  WellFormed NCHW N C H W st1 -> WellFormed NHWC N C H W st2 ->
  (forall n c h w, n < N -> c < C -> h < H -> w < W ->
     elem NCHW C H W (data (INPUT st1)) n c h w
     = elem NHWC C H W (data (INPUT st2)) n c h w) ->
  (forall n c h w, n < N -> c < C -> h < H -> w < W ->
     elem NCHW C H W (data (OUTPUT_GRAD st1)) n c h w
     = elem NHWC C H W (data (OUTPUT_GRAD st2)) n c h w) ->
  data (SAVED_MEAN st1) = data (SAVED_MEAN st2) ->
  data (SAVED_INV_VAR st1) = data (SAVED_INV_VAR st2) ->
  exists r1 r2,
    RunOnDevice uninit1 dchecks1 NCHW st1 = Returned true r1
    /\ RunOnDevice uninit2 dchecks2 NHWC st2 = Returned true r2
    /\ big_sum C (fun c => data (SCALE_GRAD r1) !!! c)
       = big_sum C (fun c => data (SCALE_GRAD r2) !!! c)
    /\ big_sum C (fun c => data (BIAS_GRAD r1) !!! c)
       = big_sum C (fun c => data (BIAS_GRAD r2) !!! c).



Module Examples.
Import Binary32.

(** A [float] tensor with integer entries. *)
Definition tensor (ds : list nat) (zs : list Z) : Tensor float :=
  mkTensor ds (of_Z <$> zs).

(** The numerical check of the specification: [N = 2], [C = H = W = 1]
    (the same shape in both layouts), over arbitrary output blobs. *)
Definition numerical (dX dScale dBias : Tensor float) (q : nat)
    : OpState float :=
  mkOpState (tensor [2; 1; 1; 1] [1; 3]%Z) (tensor [1] [2]%Z)
    (tensor [2; 1; 1; 1] [1; 1]%Z) (tensor [1] [2]%Z) (tensor [1] [1]%Z)
    dX dScale dBias q.

(** As [numerical], with a sentinel in the outputs. *)
Definition sentinel : OpState float :=
  numerical (tensor [2; 1; 1; 1] [9; 9]%Z) (tensor [1] [9]%Z)
    (tensor [1] [9]%Z) 0.

(** As [sentinel], with a saved mean of two entries for one channel. *)
Definition long_mean : OpState float :=
  mkOpState (tensor [2; 1; 1; 1] [1; 3]%Z) (tensor [1] [2]%Z)
    (tensor [2; 1; 1; 1] [1; 1]%Z) (tensor [2] [2; 5]%Z) (tensor [1] [1]%Z)
    (tensor [2; 1; 1; 1] [9; 9]%Z) (tensor [1] [9]%Z) (tensor [1] [9]%Z) 0.

(** As [sentinel], with a scale of two entries for one channel. *)
Definition long_scale : OpState float :=
  mkOpState (tensor [2; 1; 1; 1] [1; 3]%Z) (tensor [2] [2; 2]%Z)
    (tensor [2; 1; 1; 1] [1; 1]%Z) (tensor [1] [2]%Z) (tensor [1] [1]%Z)
    (tensor [2; 1; 1; 1] [9; 9]%Z) (tensor [1] [9]%Z) (tensor [1] [9]%Z) 0.


(** What fresh storage holds in these runs. *)
Definition junk : nat -> nat -> float := fun _ _ => of_Z 7.

(** Tensors of rationals with integer entries. *)
Definition qtensor (ds : list nat) (zs : list Z) : Tensor Qc :=
  mkTensor ds ((fun z => Q2Qc (inject_Z z)) <$> zs).

Definition qjunk : nat -> nat -> Qc := fun _ _ => Q2Qc 0.

(** The numerical check over the rationals. *)
Definition qnumerical : OpState Qc :=
  mkOpState (qtensor [2; 1; 1; 1] [1; 3]%Z) (qtensor [1] [2]%Z)
    (qtensor [2; 1; 1; 1] [1; 1]%Z) (qtensor [1] [2]%Z) (qtensor [1] [1]%Z)
    (qtensor [] []) (qtensor [] []) (qtensor [] []) 0.

(** A zero output gradient. *)
Definition qzero_grad : OpState Qc :=
  mkOpState (qtensor [2; 1; 1; 1] [1; 3]%Z) (qtensor [1] [2]%Z)
    (qtensor [2; 1; 1; 1] [0; 0]%Z) (qtensor [1] [2]%Z) (qtensor [1] [1]%Z)
    (qtensor [] []) (qtensor [] []) (qtensor [] []) 0.


(** One logical tensor with [N = 1], [C = 2], [H = 2], [W = 1], stored
    channel-major and channel-minor. *)
Definition qmajor : OpState Qc :=
  mkOpState (qtensor [1; 2; 2; 1] [1; 2; 3; 4]%Z) (qtensor [2] [1; 1]%Z)
    (qtensor [1; 2; 2; 1] [5; 6; 7; 8]%Z) (qtensor [2] [2; 3]%Z)
    (qtensor [2] [1; 2]%Z)
    (qtensor [] []) (qtensor [] []) (qtensor [] []) 0.

Definition qminor : OpState Qc :=
  mkOpState (qtensor [1; 2; 1; 2] [1; 3; 2; 4]%Z) (qtensor [2] [1; 1]%Z)
    (qtensor [1; 2; 1; 2] [5; 7; 6; 8]%Z) (qtensor [2] [2; 3]%Z)
    (qtensor [2] [1; 2]%Z)
    (qtensor [] []) (qtensor [] []) (qtensor [] []) 0.
End Examples.

(** * Further vocabulary *)

(** The outputs of a state are tensors of the shapes of [X], [scale] and
    [scale]. *)
Definition shaped_like_inputs {F : Type} (st0 st : OpState F) : Prop :=
  dims (INPUT_GRAD st) = dims (INPUT st0)
  /\ length (data (INPUT_GRAD st)) = numel (dims (INPUT st0))
  /\ dims (SCALE_GRAD st) = dims (SCALE st0)
  /\ length (data (SCALE_GRAD st)) = numel (dims (SCALE st0))
  /\ dims (BIAS_GRAD st) = dims (SCALE st0)
  /\ length (data (BIAS_GRAD st)) = numel (dims (SCALE st0)).

(** [of_int] also respects sums and one. *)
Class IntEmbedding (F : Type) `{Arith F} : Prop := {
  of_int_add : forall a b : Z, of_int (a + b) = (of_int a + of_int b)%F;
  of_int_one : of_int 1 = fone
}.

(** * The gradient maker, [GetSpatialBNGradient] (lines 100 to 128) *)

(** The maker is written with helpers of [GradientMakerBase] and of the
    protobuf utilities, which this file does not define.  [GI] and [GO] are
    left open; of the others only what lines 102 to 127 rely on is modelled:
    an operator definition with its type, name, inputs, outputs and
    arguments, argument lookup by name, and [SingleGradientDef] building one
    definition from the four values it is given. *)

Module GradientMaker.
(** An argument of an operator definition: its name and its integer field,
    when it has one ([has_i], [i]). *)
Record Argument := mkArgument { arg_name : string; arg_i : option Z }.

(** An operator definition, as far as the maker looks at it. *)
Record OperatorDef := mkOperatorDef {
  op_type : string;
  op_name : string;
  op_input : list string;
  op_output : list string;
  op_arg : list Argument
}.

(** [GetArgument(def, name)]: the first argument of that name;
    [HasArgument] says whether there is one. *)
Definition GetArgument (def : OperatorDef) (name : string)
    : option Argument :=
  List.find (fun a => String.eqb (arg_name a) name) (op_arg def).

Definition HasArgument (def : OperatorDef) (name : string) : bool :=
  match GetArgument def name with Some _ => true | None => false end.

(** [CAFFE_ENFORCE_EQ] on two sizes; [None] is the exception. *)
Definition ENFORCE_EQ (a b : nat) : option unit :=
  if a =? b then Some () else None.

(** [SingleGradientDef(type, name, inputs, outputs)]: one definition with
    these fields and no argument. *)
Definition SingleGradientDef (type name : string)
    (inputs outputs : list string) : list OperatorDef :=
  [mkOperatorDef type name inputs outputs []].

(** [OPERATOR_SCHEMA(SpatialBNGradient).NumInputs(5).NumOutputs(3)]
    (line 96). *)
Definition SpatialBNGradient_schema (d : OperatorDef) : Prop :=
  length (op_input d) = 5 /\ length (op_output d) = 3.

Section Maker.
(** [GI(i)] and [GO(i)] of [GradientMakerBase]: the name of the gradient of
    input [i], and the name of the dense gradient of output [i]; [None]
    when the helper throws. *)
Variables GI GO : nat -> option string.

(** The definition of the forward operator. *)
Variable def_ : OperatorDef.

(** [I(i)] and [O(i)]: the [i]-th input and output of [def_]. *)
Definition I (i : nat) : option string := op_input def_ !! i.
Definition O (i : nat) : option string := op_output def_ !! i.

(** Lines 104 to 109: [is_test] is false unless an argument of that name
    says otherwise; the argument must carry an integer. *)
Definition is_test_of : option bool :=
  if HasArgument def_ "is_test" then
    arg ← GetArgument def_ "is_test";
    i ← arg_i arg;
    Some (negb (i =? 0)%Z)
  else Some false.

(** Lines 102 to 127; [None] is an exception. *)
Definition GetGradientDefs : option (list OperatorDef) :=
  is_test ← is_test_of;
  gi0 ← GI 0; gi1 ← GI 1; gi2 ← GI 2;
  let grad_outputs := [gi0; gi1; gi2] in
  grad_inputs ←
    (if is_test : bool then
       _ ← ENFORCE_EQ (length (op_input def_)) 5;
       _ ← ENFORCE_EQ (length (op_output def_)) 1;
       i0 ← I 0; i1 ← I 1; go0 ← GO 0; i3 ← I 3; i4 ← I 4;
       Some [i0; i1; go0; i3; i4]
     else
       _ ← ENFORCE_EQ (length (op_input def_)) 5;
       _ ← ENFORCE_EQ (length (op_output def_)) 5;
       i0 ← I 0; i1 ← I 1; go0 ← GO 0; o3 ← O 3; o4 ← O 4;
       Some [i0; i1; go0; o3; o4]);
  Some (SingleGradientDef "SpatialBNGradient" EmptyString
          grad_inputs grad_outputs).
End Maker.
End GradientMaker.

(** ** More concrete inputs *)

Module MoreExamples.
Import Binary32 Examples.

(** A matrix where an activation is expected. *)
Definition rank2 : OpState float :=
  mkOpState (tensor [2; 1] [1; 3]%Z) (tensor [1] [2]%Z)
    (tensor [2; 1] [1; 1]%Z) (tensor [1] [2]%Z) (tensor [1] [1]%Z)
    (tensor [] []) (tensor [] []) (tensor [] []) 0.

(** Two channels and a scale of one entry. *)
Definition short_scale : OpState float :=
  mkOpState (tensor [1; 2; 1; 1] [1; 3]%Z) (tensor [1] [2]%Z)
    (tensor [1; 2; 1; 1] [1; 1]%Z) (tensor [2] [2; 2]%Z)
    (tensor [2] [1; 1]%Z)
    (tensor [] []) (tensor [] []) (tensor [] []) 0.

(** As [sentinel], with an output gradient of one element for an
    activation of two. *)
Definition short_grad : OpState float :=
  mkOpState (tensor [2; 1; 1; 1] [1; 3]%Z) (tensor [1] [2]%Z)
    (tensor [1; 1; 1; 1] [1]%Z) (tensor [1] [2]%Z) (tensor [1] [1]%Z)
    (tensor [2; 1; 1; 1] [9; 9]%Z) (tensor [1] [9]%Z) (tensor [1] [9]%Z) 0.

(** As [sentinel], with another scale. *)
Definition other_scale : OpState float :=
  mkOpState (tensor [2; 1; 1; 1] [1; 3]%Z) (tensor [1] [5]%Z)
    (tensor [2; 1; 1; 1] [1; 1]%Z) (tensor [1] [2]%Z) (tensor [1] [1]%Z)
    (tensor [] []) (tensor [] []) (tensor [] []) 0.

Local Open Scope string_scope.

(** A forward operator in training mode and one in test mode. *)
Definition training_def : GradientMaker.OperatorDef :=
  GradientMaker.mkOperatorDef "SpatialBN" "bn"
    ["x"; "scale"; "bias"; "mean"; "var"]
    ["y"; "mean"; "var"; "saved_mean"; "saved_var"]
    [GradientMaker.mkArgument "order" None].

Definition test_def : GradientMaker.OperatorDef :=
  GradientMaker.mkOperatorDef "SpatialBN" "bn"
    ["x"; "scale"; "bias"; "mean"; "var"] ["y"]
    [GradientMaker.mkArgument "is_test" (Some 1%Z)].

(** Gradient names as the maker's base class forms them. *)
Definition grad_of_input (def : GradientMaker.OperatorDef) (i : nat)
    : option string :=
  (fun s => s ++ "_grad") <$> GradientMaker.op_input def !! i.

Definition grad_of_output (def : GradientMaker.OperatorDef) (i : nat)
    : option string :=
  (fun s => s ++ "_grad") <$> GradientMaker.op_output def !! i.
End MoreExamples.

(** ** Inputs on which [float] rounds, overflows or is not a number *)

Module Rounding.
Import Binary32 Examples.

(** [N = 3], [C = 1], [H = 2], [W = 1], output gradient
    [2^24, 0, 1, 1, -2^24, 0], whose sum is 2; with one channel the two
    layouts store it alike, and [ds] is the shape in the layout chosen.
    In [float], [2^24 + 1] rounds to [2^24]. *)
Definition absorbing (ds : list nat) : OpState float :=
  mkOpState (tensor ds [0; 0; 0; 0; 0; 0]%Z) (tensor [1] [1]%Z)
    (tensor ds [16777216; 0; 1; 1; -16777216; 0]%Z)
    (tensor [1] [0]%Z) (tensor [1] [1]%Z)
    (tensor [] []) (tensor [] []) (tensor [] []) 0.

(** [N = 2], [C = H = W = 1]: the activation sits at its mean and
    [invStd = 2^64], whose square is above the largest [float]. *)
Definition squared_overflow : OpState float :=
  mkOpState (tensor [2; 1; 1; 1] [2; 2]%Z) (tensor [1] [1]%Z)
    (tensor [2; 1; 1; 1] [1; 3]%Z) (tensor [1] [2]%Z)
    (tensor [1] [2 ^ 64]%Z)
    (tensor [] []) (tensor [] []) (tensor [] []) 0.


End Rounding.

(** * Properties *)

(** ** The rationals are exact *)

Lemma Qc_of_int_mult (a b : Z) :
  Q2Qc (inject_Z (a * b)) = Qcmult (Q2Qc (inject_Z a)) (Q2Qc (inject_Z b)).
Proof.
  apply Qc_is_canon. unfold Qcmult, Q2Qc. simpl.
  rewrite !Qred_correct. unfold Qeq, inject_Z. simpl. lia.
Qed.

#[global] Instance Rational_exact : ExactArith Qc.
Proof.
  split.
  - exact Qcrt.
  - exact Qc_of_int_mult.
Qed.

(** ** Integer products that fit *)

Lemma wrap_int_fits (z : Z) :
  (0 <= z <= INT_MAX)%Z -> wrap_int z = z.
Proof.
  unfold wrap_int, INT_MAX. intros Hz.
  rewrite Z.mod_small; lia.
Qed.

Lemma imul_fits (a b : nat) :
  (Z.of_nat (a * b) <= INT_MAX)%Z ->
  imul (Z.of_nat a) (Z.of_nat b) = Z.of_nat (a * b).
Proof.
  intros Hab. unfold imul. rewrite <- Nat2Z.inj_mul.
  apply wrap_int_fits. lia.
Qed.

(** ** Loops whose iterations stay inside their buffers *)

Section LoopLemmas.
Context {S : Type}.

Lemma for_each_fold (body : nat -> S -> option S) (step : nat -> S -> S)
    (Inv : S -> Prop) (idx : list nat) (s : S) :
  Inv s ->
  (forall i s, i ∈ idx -> Inv s ->
     body i s = Some (step i s) /\ Inv (step i s)) ->
  for_each body idx s = Some (fold_left (fun s i => step i s) idx s)
  /\ Inv (fold_left (fun s i => step i s) idx s).
Proof.
  revert s. induction idx as [|i idx IH]; intros s Hs Hbody; simpl.
  - done.
  - destruct (Hbody i s) as [-> Hs']; [left | done |].
    apply IH; [done|]. intros j s2 Hj. apply Hbody. by right.
Qed.

Lemma fold_left_ext_in {A} (f g : S -> A -> S) (l : list A) (s : S) :
  (forall s x, x ∈ l -> f s x = g s x) ->
  fold_left f l s = fold_left g l s.
Proof.
  revert s. induction l as [|x l IH]; intros s Hfg; simpl; [done|].
  rewrite Hfg; [|left]. apply IH. intros s' y Hy. apply Hfg. by right.
Qed.
End LoopLemmas.

Lemma fold_left_pair {A B I} (f : I -> A -> A) (g : I -> B -> B)
    (idx : list I) (a : A) (b : B) :
  fold_left (fun s i => (f i s.1, g i s.2)) idx (a, b)
  = (fold_left (fun a i => f i a) idx a, fold_left (fun b i => g i b) idx b).
Proof.
  revert a b. induction idx as [|i idx IH]; intros a b; simpl; [done|].
  apply IH.
Qed.

(** ** Updates of a buffer through a map *)

Section BufferLemmas.
Context {F : Type} {arith : Arith F}.

Lemma lookup_total_eq (l1 l2 : list F) (p q : nat) :
  l1 !! p = l2 !! q -> l1 !!! p = l2 !!! q.
Proof. intros Hpq. by rewrite !list_lookup_total_alt, Hpq. Qed.

Lemma replicate_zero_total (n c : nat) :
  c < n -> replicate n (0%F : F) !!! c = 0%F.
Proof.
  intros Hc. apply list_lookup_total_correct. by apply lookup_replicate_2.
Qed.

Lemma accumulate_fold (key : nat -> nat) (val : nat -> F)
    (idx : list nat) (l : list F) (c : nat) :
  c < length l ->
  fold_left (fun l i => accumulate key val i l) idx l !!! c
  = fold_left (fun a i => if decide (key i = c) then (a + val i)%F else a)
      idx (l !!! c).
Proof.
  revert l. induction idx as [|i idx IH]; intros l Hc; simpl; [done|].
  rewrite IH by (unfold accumulate; by rewrite length_insert).
  f_equal. unfold accumulate. rewrite list_lookup_total_insert.
  destruct (decide (key i = c)) as [->|Hne].
  - by rewrite decide_True.
  - rewrite decide_False; [done|]. intros [? _]. done.
Qed.

Lemma accumulate_fold_length (key : nat -> nat) (val : nat -> F)
    (idx : list nat) (l : list F) :
  length (fold_left (fun l i => accumulate key val i l) idx l) = length l.
Proof.
  revert l. induction idx as [|i idx IH]; intros l; simpl; [done|].
  rewrite IH. unfold accumulate. by rewrite length_insert.
Qed.

Lemma vec_update_length off r g l : length (vec_update off r g l) = length l.
Proof. unfold vec_update. by rewrite length_inserts. Qed.

Lemma vec_update_inside off r g l i :
  off + r <= length l -> i < r ->
  vec_update off r g l !!! (off + i) = g i (l !!! (off + i)).
Proof.
  intros Hlen Hi. unfold vec_update.
  apply list_lookup_total_correct.
  rewrite list_lookup_inserts;
    rewrite ?length_fmap, ?length_seq; try lia.
  replace (off + i - off) with i by lia.
  rewrite list_lookup_fmap, lookup_seq_lt by done. done.
Qed.

Lemma vec_update_outside off r g l p :
  p < off \/ off + r <= p ->
  vec_update off r g l !!! p = l !!! p.
Proof.
  intros Hp. unfold vec_update. apply lookup_total_eq.
  destruct Hp.
  - by apply list_lookup_inserts_lt.
  - apply list_lookup_inserts_ge. by rewrite length_fmap, length_seq.
Qed.

(** A loop that rewrites the map's first [r] entries at each round. *)
Lemma vec_update_fold (r : nat) (g : nat -> nat -> F -> F)
    (idx : list nat) (l : list F) (c : nat) :
  r <= length l -> c < r ->
  fold_left (fun l j => vec_update 0 r (g j) l) idx l !!! c
  = fold_left (fun a j => g j c a) idx (l !!! c).
Proof.
  revert l. induction idx as [|j idx IH]; intros l Hr Hc; simpl; [done|].
  rewrite IH by (rewrite ?vec_update_length; done).
  f_equal. by apply (vec_update_inside 0).
Qed.

Lemma vec_update_fold_length (r : nat) (g : nat -> nat -> F -> F)
    (idx : list nat) (l : list F) :
  length (fold_left (fun l j => vec_update 0 r (g j) l) idx l) = length l.
Proof.
  revert l. induction idx as [|j idx IH]; intros l; simpl; [done|].
  by rewrite IH, vec_update_length.
Qed.

(** A loop that rewrites block [j] of [r] entries at round [j]. *)
Lemma block_update_fold_length (r : nat) (g : nat -> nat -> F -> F)
    (idx : list nat) (l : list F) :
  length (fold_left (fun l j => vec_update (j * r) r (g j) l) idx l)
  = length l.
Proof.
  revert l. induction idx as [|j idx IH]; intros l; simpl; [done|].
  by rewrite IH, vec_update_length.
Qed.

Lemma block_update_fold (r : nat) (g : nat -> nat -> F -> F)
    (k : nat) (l : list F) (j i : nat) :
  k * r <= length l -> i < r ->
  fold_left (fun l j => vec_update (j * r) r (g j) l) (seq 0 k) l
    !!! (j * r + i)
  = if decide (j < k) then g j i (l !!! (j * r + i)) else l !!! (j * r + i).
Proof.
  intros Hlen Hi. induction k as [|k IH].
  - simpl. destruct (decide (j < 0)); [lia | done].
  - rewrite seq_S, fold_left_app. simpl.
    set (lk := fold_left _ (seq 0 k) l) in *.
    assert (length lk = length l) as Hlk
      by apply block_update_fold_length.
    destruct (decide (j = k)) as [->|Hjk].
    + rewrite vec_update_inside by (rewrite ?Hlk; lia).
      rewrite IH by lia.
      rewrite decide_False by lia. by rewrite decide_True by lia.
    + rewrite vec_update_outside by nia.
      rewrite IH by lia.
      destruct (decide (j < k)).
      * by rewrite decide_True by lia.
      * by rewrite decide_False by lia.
Qed.

End BufferLemmas.

(** ** Channel-major blocks: block [nc] belongs to channel [nc mod C] *)

Section Stride.
Context {F : Type} {arith : Arith F}.

Lemma fold_one_period (C c b : nat) (v : nat -> F) (k : nat) (a : F) :
  k <= C -> c < C ->
  fold_left (fun a nc => if decide (nc mod C = c) then (a + v nc)%F else a)
    (seq (b * C) k) a
  = if decide (c < k) then (a + v (b * C + c)%nat)%F else a.
Proof.
  intros Hk Hc. induction k as [|k IH].
  - simpl. destruct (decide (c < 0)); [lia | done].
  - rewrite seq_S, fold_left_app, IH by lia. simpl.
    assert ((b * C + k) mod C = k) as ->.
    { rewrite Nat.add_comm, Nat.Div0.mod_add. apply Nat.mod_small. lia. }
    destruct (decide (k = c)) as [->|Hkc].
    + rewrite decide_False by lia. by rewrite decide_True by lia.
    + destruct (decide (c < k)).
      * by rewrite decide_True by lia.
      * by rewrite decide_False by lia.
Qed.

Lemma fold_channel (C N c : nat) (v : nat -> F) (a : F) :
  c < C ->
  fold_left (fun a nc => if decide (nc mod C = c) then (a + v nc)%F else a)
    (seq 0 (N * C)) a
  = fold_left (fun a n => (a + v (n * C + c)%nat)%F) (seq 0 N) a.
Proof.
  intros Hc. induction N as [|N IH].
  - done.
  - replace (S N * C) with (N * C + C) by lia.
    rewrite seq_app, fold_left_app, IH.
    rewrite (seq_S N 0), fold_left_app. simpl.
    rewrite fold_one_period by lia. by rewrite decide_True by lia.
Qed.
End Stride.

(** ** Extents whose products fit an [int] *)

Lemma wrap_int_mul_l (a b : Z) : wrap_int (wrap_int a * b) = wrap_int (a * b).
Proof.
  unfold wrap_int. f_equal.
  rewrite (Z.mod_eq (a + 2 ^ 31) (2 ^ 32)) by lia.
  set (q := ((a + 2 ^ 31) / 2 ^ 32)%Z).
  replace ((a + 2 ^ 31 - 2 ^ 32 * q - 2 ^ 31) * b + 2 ^ 31)%Z
    with (a * b + 2 ^ 31 + (- q * b) * 2 ^ 32)%Z by lia.
  apply Z.mod_add. lia.
Qed.

Lemma NHW_fits (N H W : nat) :
  (Z.of_nat (N * H * W) <= INT_MAX)%Z ->
  NHW (Z.of_nat N) (Z.of_nat H) (Z.of_nat W) = Z.of_nat (N * H * W).
Proof.
  intros Hfit. unfold NHW, imul. rewrite wrap_int_mul_l.
  rewrite <- !Nat2Z.inj_mul. apply wrap_int_fits. lia.
Qed.

Lemma rows_NCHW_fits (H W : nat) :
  (Z.of_nat (H * W) <= INT_MAX)%Z ->
  rows_NCHW (Z.of_nat H) (Z.of_nat W) = H * W.
Proof.
  intros Hfit. unfold rows_NCHW. rewrite imul_fits by done.
  apply Nat2Z.id.
Qed.

Lemma cols_NCHW_fits (N C : nat) :
  (Z.of_nat (N * C) <= INT_MAX)%Z ->
  cols_NCHW (Z.of_nat N) (Z.of_nat C) = N * C.
Proof.
  intros Hfit. unfold cols_NCHW. rewrite imul_fits by done.
  apply Nat2Z.id.
Qed.

Lemma cols_NHWC_fits (N H W : nat) :
  (Z.of_nat (N * H * W) <= INT_MAX)%Z ->
  cols_NHWC (Z.of_nat N) (Z.of_nat H) (Z.of_nat W) = N * H * W.
Proof.
  intros Hfit. unfold cols_NHWC. rewrite NHW_fits by done.
  apply Nat2Z.id.
Qed.

Lemma rows_NHWC_nat (C : nat) : rows_NHWC (Z.of_nat C) = C.
Proof. apply Nat2Z.id. Qed.

Lemma channel_nat (C nc : nat) : channel (Z.of_nat C) nc = nc mod C.
Proof. unfold channel. by rewrite Nat2Z.id. Qed.

(** ** Lines 24 to 40 *)

Section Prepare.
Context {F : Type} {arith : Arith F}.
Variable uninit : nat -> nat -> F.

Lemma ResizeLike_dims slot (dst src : Tensor F) :
  dims (ResizeLike uninit slot dst src) = dims src.
Proof. unfold ResizeLike. by destruct (_ =? _). Qed.

Lemma ResizeLike_length slot (dst src : Tensor F) :
  length (data (ResizeLike uninit slot dst src)) = numel (dims src).
Proof.
  unfold ResizeLike. destruct (_ =? _) eqn:Hsz; simpl.
  - symmetry. by apply Nat.eqb_eq.
  - by rewrite length_fmap, length_seq.
Qed.

Lemma setZero_all (n : nat) (buf : list F) :
  length buf = n -> setZero n buf = Some (replicate n 0%F).
Proof.
  intros Hn. unfold setZero, map_ok.
  rewrite (proj2 (Nat.leb_le _ _)) by lia.
  rewrite drop_ge by lia. by rewrite app_nil_r.
Qed.

Lemma prepare_ok (C : nat) (st : OpState F) :
  dims (SCALE st) = [C] ->
  prepare uninit (Z.of_nat C) st = Some (prepared uninit C st).
Proof.
  intros Hdims. unfold prepare, prepared. rewrite Nat2Z.id.
  rewrite !setZero_all
    by (rewrite ResizeLike_length, Hdims; simpl; lia).
  simpl. by rewrite !ResizeLike_dims, Hdims.
Qed.

Lemma numel_layout o N C H W : numel (layout_dims o N C H W) = N * C * H * W.
Proof. unfold layout_dims. destruct (is_NCHW o); simpl; lia. Qed.

Lemma dim32_layout o N C H W (X : Tensor F) :
  dims X = layout_dims o N C H W ->
  ndim X = 4
  /\ dim32 X 0 = Some (Z.of_nat N)
  /\ dim32 X 1 = Some (Z.of_nat (if is_NCHW o then C else H))
  /\ dim32 X 2 = Some (Z.of_nat (if is_NCHW o then H else W))
  /\ dim32 X 3 = Some (Z.of_nat (if is_NCHW o then W else C)).
Proof.
  unfold ndim, dim32, layout_dims. intros ->.
  by destruct (is_NCHW o).
Qed.
End Prepare.

(** ** The loops on well-formed inputs *)


Section ChannelMajor.
Context {F : Type} {arith : Arith F}.
Variable uninit : nat -> nat -> F.
Variables N C H W : nat.
Variable st : OpState F.
Hypothesis wf : WellFormed NCHW N C H W st.

Local Abbreviation X := (data (INPUT st)).
Local Abbreviation dY := (data (OUTPUT_GRAD st)).
Local Abbreviation scale := (data (SCALE st)).
Local Abbreviation mean := (data (SAVED_MEAN st)).
Local Abbreviation inv_var := (data (SAVED_INV_VAR st)).
Local Abbreviation zC := (Z.of_nat C).
Local Abbreviation zN := (Z.of_nat N).
Local Abbreviation zH := (Z.of_nat H).
Local Abbreviation zW := (Z.of_nat W).

Lemma reduce_loop :
  for_loop (N * C) (reduce_block X dY mean inv_var zC zH zW)
    (replicate C 0%F, replicate C 0%F) = Some (reduce_all N C H W st)
  /\ length (reduce_all N C H W st).1 = C
  /\ length (reduce_all N C H W st).2 = C.
Proof.
  destruct wf as [HXd HX HdY Hsd Hsc Hm Hiv HfNHW HfNC HfHW].
  unfold for_loop, reduce_all.
  apply (for_each_fold _ _ (fun s => length s.1 = C /\ length s.2 = C)).
  - simpl. by rewrite !length_replicate.
  - intros nc [b s] Hnc [Hb Hs]. simpl in Hb, Hs.
    apply elem_of_seq in Hnc.
    assert (0 < C) by (destruct C; lia).
    assert (nc mod C < C) by (apply Nat.mod_upper_bound; lia).
    split.
    + unfold reduce_block, reduce_ok, col_ok, at_ok.
      rewrite channel_nat, rows_NCHW_fits by done. simpl.
      rewrite HX, HdY, Hm, Hiv, Hb, Hs.
      assert ((nc + 1) * (H * W) <= N * C * H * W) by nia.
      repeat (rewrite (proj2 (Nat.leb_le _ _)) by done).
      repeat (rewrite (proj2 (Nat.ltb_lt _ _)) by done).
      by rewrite !orb_true_r.
    + unfold reduce_step. simpl. by rewrite !length_insert.
Qed.

Lemma propagate_loop q :
  for_loop (N * C)
    (propagate_block X dY scale mean inv_var zN zC zH zW
       (reduce_all N C H W st).1 (reduce_all N C H W st).2)
    (replicate (N * C * H * W) 0%F, q) = Some (propagate_all N C H W st q)
  /\ length (propagate_all N C H W st q).1 = N * C * H * W.
Proof.
  destruct reduce_loop as (_ & Hb & Hs).
  destruct wf as [HXd HX HdY Hsd Hsc Hm Hiv HfNHW HfNC HfHW].
  unfold for_loop, propagate_all.
  apply (for_each_fold _ _ (fun s => length s.1 = N * C * H * W)).
  - simpl. by rewrite length_replicate.
  - intros nc [dx q'] Hnc Hdx. simpl in Hdx.
    apply elem_of_seq in Hnc.
    assert (0 < C) by (destruct C; lia).
    assert (nc mod C < C) by (apply Nat.mod_upper_bound; lia).
    split.
    + unfold propagate_block, propagate_ok, col_ok, at_ok.
      rewrite channel_nat, rows_NCHW_fits by done. simpl.
      rewrite HX, HdY, Hm, Hiv, Hsc, Hb, Hs, Hdx.
      assert ((nc + 1) * (H * W) <= N * C * H * W) by nia.
      repeat (rewrite (proj2 (Nat.leb_le _ _)) by done).
      repeat (rewrite (proj2 (Nat.ltb_lt _ _)) by done).
      by rewrite !orb_true_r.
    + unfold propagate_step. simpl. by rewrite length_inserts.
Qed.

Lemma run_NCHW_ok :
  run_NCHW zN zC zH zW (prepared uninit C st)
  = Some (with_outputs st
            (mkTensor (layout_dims NCHW N C H W)
               (propagate_all N C H W st (quotients st)).1)
            (mkTensor [C] (reduce_all N C H W st).2)
            (mkTensor [C] (reduce_all N C H W st).1)
            (propagate_all N C H W st (quotients st)).2).
Proof.
  destruct reduce_loop as (Hred & _).
  destruct (propagate_loop (quotients st)) as (Hprop & _).
  destruct wf as [HXd HX HdY Hsd Hsc Hm Hiv HfNHW HfNC HfHW].
  unfold run_NCHW. simpl.
  rewrite rows_NCHW_fits, cols_NCHW_fits by done.
  rewrite setZero_all
    by (rewrite ResizeLike_length, HXd, numel_layout; lia).
  simpl. replace (H * W * (N * C)) with (N * C * H * W) by lia.
  rewrite Hred. simpl. rewrite Hprop. simpl.
  by rewrite ResizeLike_dims, HXd.
Qed.

Lemma reduce_all_entries (c : nat) :
  c < C ->
  (reduce_all N C H W st).1 !!! c = bias_NCHW N C H W st c
  /\ (reduce_all N C H W st).2 !!! c = scale_NCHW N C H W st c.
Proof.
  intros Hc.
  destruct wf as [HXd HX HdY Hsd Hsc Hm Hiv HfNHW HfNC HfHW].
  pose (rows := rows_NCHW zH zW).
  pose (f1 := accumulate (channel zC) (fun nc => esum (col dY rows nc))).
  pose (f2 := accumulate (channel zC)
    (fun nc => esum ((fun i => (coeff X rows i nc - mean !!! channel zC nc)
                        * inv_var !!! channel zC nc * coeff dY rows i nc)%F
                     <$> seq 0 rows))).
  change (reduce_all N C H W st) with
    (fold_left (fun s i => (f1 i s.1, f2 i s.2)) (seq 0 (N * C))
       (replicate C 0%F, replicate C 0%F)).
  rewrite fold_left_pair. simpl. unfold f1, f2.
  rewrite !accumulate_fold by (by rewrite length_replicate).
  rewrite !replicate_zero_total by done.
  unfold rows, channel. rewrite rows_NCHW_fits, Nat2Z.id by done.
  rewrite !fold_channel by done.
  split; [done|].
  apply fold_left_ext_in. intros a n Hn.
  assert ((n * C + c) mod C = c) as ->; [|done].
  rewrite Nat.add_comm, Nat.Div0.mod_add. by apply Nat.mod_small.
Qed.

Lemma propagate_all_entries (q nc i : nat) :
  nc < N * C -> i < H * W ->
  (propagate_all N C H W st q).1 !!! (nc * (H * W) + i)
  = (0 + scaleInvVarNHW scale inv_var zN zH zW (nc mod C)
         * (coeff dY (H * W) i nc * of_int zN * of_int zH * of_int zW
            - (reduce_all N C H W st).1 !!! (nc mod C)
            - (coeff X (H * W) i nc - mean !!! (nc mod C))
              * (reduce_all N C H W st).2 !!! (nc mod C)
              * inv_var !!! (nc mod C)))%F.
Proof.
  intros Hnc Hi.
  destruct wf as [HXd HX HdY Hsd Hsc Hm Hiv HfNHW HfNC HfHW].
  pose (rows := rows_NCHW zH zW).
  pose (g := fun nc i old =>
          (old + scaleInvVarNHW scale inv_var zN zH zW (channel zC nc)
                 * (coeff dY rows i nc * of_int zN * of_int zH * of_int zW
                    - (reduce_all N C H W st).1 !!! channel zC nc
                    - (coeff X rows i nc - mean !!! channel zC nc)
                      * (reduce_all N C H W st).2 !!! channel zC nc
                      * inv_var !!! channel zC nc))%F).
  change (propagate_all N C H W st q) with
    (fold_left (fun s nc => (vec_update (nc * rows) rows (g nc) s.1, S s.2))
       (seq 0 (N * C)) (replicate (N * C * H * W) 0%F, q)).
  rewrite (fold_left_pair (fun nc l => vec_update (nc * rows) rows (g nc) l)
             (fun _ q => S q)).
  simpl. unfold rows. rewrite rows_NCHW_fits by done.
  rewrite block_update_fold by (rewrite ?length_replicate; lia).
  rewrite decide_True by done.
  rewrite replicate_zero_total by nia.
  unfold g, rows, channel. by rewrite rows_NCHW_fits, Nat2Z.id.
Qed.

End ChannelMajor.

Section ChannelMinor.
Context {F : Type} {arith : Arith F}.
Variable uninit : nat -> nat -> F.
Variables N C H W : nat.
Variable st : OpState F.
Hypothesis wf : WellFormed NHWC N C H W st.

Local Abbreviation X := (data (INPUT st)).
Local Abbreviation dY := (data (OUTPUT_GRAD st)).
Local Abbreviation scale := (data (SCALE st)).
Local Abbreviation mean := (data (SAVED_MEAN st)).
Local Abbreviation inv_var := (data (SAVED_INV_VAR st)).
Local Abbreviation zC := (Z.of_nat C).
Local Abbreviation zN := (Z.of_nat N).
Local Abbreviation zH := (Z.of_nat H).
Local Abbreviation zW := (Z.of_nat W).

Lemma position_step_length nhw s :
  let s' := position_step X dY scale mean inv_var zN zC zH zW nhw s in
  length s'.1.1.1 = length s.1.1.1 /\ length s'.1.1.2 = length s.1.1.2
  /\ length s'.1.2 = length s.1.2.
Proof.
  destruct s as [[[b s] x] q]. simpl. by rewrite !length_inserts.
Qed.

Lemma position_loop q :
  for_loop (N * H * W)
    (position_block X dY scale mean inv_var zN zC zH zW)
    (replicate C 0%F, replicate C 0%F, replicate (N * C * H * W) 0%F, q)
  = Some (position_all N C H W st q)
  /\ length (position_all N C H W st q).1.1.1 = C
  /\ length (position_all N C H W st q).1.1.2 = C
  /\ length (position_all N C H W st q).1.2 = N * C * H * W.
Proof.
  destruct wf as [HXd HX HdY Hsd Hsc Hm Hiv HfNHW HfNC HfHW].
  unfold for_loop, position_all.
  apply (for_each_fold _ _
           (fun s => length s.1.1.1 = C /\ length s.1.1.2 = C
                     /\ length s.1.2 = N * C * H * W)).
  - simpl. by rewrite !length_replicate.
  - intros nhw s Hnhw (Hb & Hs & Hx).
    apply elem_of_seq in Hnhw.
    split.
    + destruct s as [[[b s] x] q']. simpl in Hb, Hs, Hx.
      unfold position_block, position_ok, col_ok, mat_ok, map_ok.
      rewrite rows_NHWC_nat, cols_NHWC_fits by done.
      rewrite HX, HdY, Hm, Hiv, Hsc, Hb, Hs, Hx.
      assert ((nhw + 1) * C <= N * C * H * W) by nia.
      assert (C * (N * H * W) <= N * C * H * W) by lia.
      repeat (rewrite (proj2 (Nat.leb_le _ _)) by done).
      by rewrite !orb_true_r.
    + destruct (position_step_length nhw s) as (-> & -> & ->). done.
Qed.

Lemma run_NHWC_ok :
  run_NHWC zN zC zH zW (prepared uninit C st)
  = Some (with_outputs st
            (mkTensor (layout_dims NHWC N C H W)
               (position_all N C H W st (quotients st)).1.2)
            (mkTensor [C] (position_all N C H W st (quotients st)).1.1.2)
            (mkTensor [C] (position_all N C H W st (quotients st)).1.1.1)
            (position_all N C H W st (quotients st)).2).
Proof.
  destruct (position_loop (quotients st)) as (Hloop & _).
  destruct wf as [HXd HX HdY Hsd Hsc Hm Hiv HfNHW HfNC HfHW].
  unfold run_NHWC. simpl.
  rewrite rows_NHWC_nat, cols_NHWC_fits by done.
  rewrite setZero_all
    by (rewrite ResizeLike_length, HXd, numel_layout; lia).
  simpl. replace (C * (N * H * W)) with (N * C * H * W) by lia.
  rewrite Hloop. simpl.
  by rewrite ResizeLike_dims, HXd.
Qed.

Lemma position_fold idx b s x q :
  fold_left
    (fun s nhw => position_step X dY scale mean inv_var zN zC zH zW nhw s)
    idx (b, s, x, q)
  = (fold_left (fun l j => bias_round C st j l) idx b,
     fold_left (fun l j => scale_round C st j l) idx s,
     fold_left (fun l j => grad_round N C H W st j l) idx x,
     q + length idx * C).
Proof.
  revert b s x q. induction idx as [|j idx IH]; intros b s x q; simpl.
  - do 3 f_equal. lia.
  - unfold rows_NHWC. rewrite !Nat2Z.id.
    rewrite IH. f_equal. lia.
Qed.

Lemma position_all_bias q c :
  c < C -> (position_all N C H W st q).1.1.1 !!! c = bias_NHWC N C H W st c.
Proof.
  intros Hc. unfold position_all. rewrite position_fold. simpl.
  unfold bias_round, bias_NHWC.
  rewrite (vec_update_fold C (fun j c old => (old + coeff dY C c j)%F))
    by (rewrite ?length_replicate; lia).
  by rewrite replicate_zero_total.
Qed.

Lemma position_all_scale q c :
  c < C -> (position_all N C H W st q).1.1.2 !!! c = scale_NHWC N C H W st c.
Proof.
  intros Hc. unfold position_all. rewrite position_fold. simpl.
  unfold scale_round, scale_NHWC.
  rewrite (vec_update_fold C
             (fun j c old => (old + (coeff X C c j - mean !!! c)
                                    * inv_var !!! c * coeff dY C c j)%F))
    by (rewrite ?length_replicate; lia).
  by rewrite replicate_zero_total.
Qed.

Lemma position_all_grad q nhw c :
  nhw < N * H * W -> c < C ->
  (position_all N C H W st q).1.2 !!! (nhw * C + c)
  = grad_NHWC N C H W st nhw c 0%F.
Proof.
  intros Hnhw Hc. unfold position_all. rewrite position_fold. simpl.
  unfold grad_round.
  rewrite (block_update_fold C (grad_NHWC N C H W st))
    by (rewrite ?length_replicate; lia).
  rewrite decide_True by done.
  rewrite replicate_zero_total by nia. done.
Qed.

End ChannelMinor.

(** ** The whole call on well-formed inputs *)

Section Run.
Context {F : Type} {arith : Arith F}.
Variable uninit : nat -> nat -> F.
Variable dchecks : bool.
Variables N C H W : nat.
Variable st : OpState F.

Lemma checks_pass_dims (o : StorageOrder) :
  dims (INPUT st) = layout_dims o N C H W ->
  dims (SCALE st) = [C] ->
  RunOnDevice uninit dchecks o st
  = switch_order o (Z.of_nat N) (Z.of_nat C) (Z.of_nat H) (Z.of_nat W)
      (prepared uninit C st).
Proof.
  intros HXd Hsd.
  unfold RunOnDevice.
  destruct (dim32_layout o N C H W (INPUT st) HXd) as (-> & -> & -> & -> & ->).
  assert (ndim (SCALE st) = 1) as -> by (unfold ndim; by rewrite Hsd).
  assert (forall z, dim_is (SCALE st) 0 z = (Z.of_nat C =? z)%Z) as Hdim.
  { intros z. unfold dim_is, dim32. by rewrite Hsd. }
  simpl. rewrite andb_false_r.
  destruct (is_NCHW o) eqn:Ho; rewrite Hdim, Z.eqb_refl; simpl;
    rewrite andb_false_r, prepare_ok by done; done.
Qed.

Lemma checks_pass (o : StorageOrder) :
  WellFormed o N C H W st ->
  RunOnDevice uninit dchecks o st
  = switch_order o (Z.of_nat N) (Z.of_nat C) (Z.of_nat H) (Z.of_nat W)
      (prepared uninit C st).
Proof. intros wf. apply checks_pass_dims; apply wf. Qed.

Lemma RunOnDevice_NCHW :
  WellFormed NCHW N C H W st ->
  RunOnDevice uninit dchecks NCHW st
  = Returned true
      (with_outputs st
         (mkTensor (layout_dims NCHW N C H W)
            (propagate_all N C H W st (quotients st)).1)
         (mkTensor [C] (reduce_all N C H W st).2)
         (mkTensor [C] (reduce_all N C H W st).1)
         (propagate_all N C H W st (quotients st)).2).
Proof.
  intros wf. rewrite checks_pass by done.
  unfold switch_order. by rewrite run_NCHW_ok.
Qed.

Lemma RunOnDevice_NHWC :
  WellFormed NHWC N C H W st ->
  RunOnDevice uninit dchecks NHWC st
  = Returned true
      (with_outputs st
         (mkTensor (layout_dims NHWC N C H W)
            (position_all N C H W st (quotients st)).1.2)
         (mkTensor [C] (position_all N C H W st (quotients st)).1.1.2)
         (mkTensor [C] (position_all N C H W st (quotients st)).1.1.1)
         (position_all N C H W st (quotients st)).2).
Proof.
  intros wf. rewrite checks_pass by done.
  unfold switch_order. by rewrite run_NHWC_ok.
Qed.
End Run.

(** ** Sums in exact arithmetic *)

Lemma big_sum_ext {F : Type} {arith : Arith F} (n : nat) (f g : nat -> F) :
  (forall i, i < n -> f i = g i) -> big_sum n f = big_sum n g.
Proof.
  induction n as [|n IH]; intros Hfg; simpl; [done|].
  rewrite IH, Hfg by (intros; try apply Hfg; lia). done.
Qed.

Section Sums.
Context {F : Type} {arith : Arith F} {exact : ExactArith F}.

Add Ring F_ring : exact_ring.


Lemma big_sum_add (m k : nat) (f : nat -> F) :
  big_sum (m + k) f = (big_sum m f + big_sum k (fun i => f (m + i)%nat))%F.
Proof.
  induction k as [|k IH]; simpl.
  - rewrite Nat.add_0_r. ring.
  - rewrite Nat.add_succ_r. simpl. rewrite IH. ring.
Qed.

Lemma big_sum_mul (A B : nat) (f : nat -> F) :
  big_sum (A * B) f
  = big_sum A (fun a => big_sum B (fun b => f (a * B + b)%nat)).
Proof.
  induction A as [|A IH]; simpl; [done|].
  rewrite Nat.add_comm, big_sum_add, IH. done.
Qed.

Lemma big_sum_scale (k : F) (n : nat) (f : nat -> F) :
  (k * big_sum n f)%F = big_sum n (fun i => (k * f i)%F).
Proof.
  induction n as [|n IH]; simpl; [ring|]. rewrite <- IH. ring.
Qed.

Lemma fold_left_big_sum (n : nat) (v : nat -> F) (a : F) :
  fold_left (fun a i => (a + v i)%F) (seq 0 n) a = (a + big_sum n v)%F.
Proof.
  induction n as [|n IH].
  - simpl. ring.
  - rewrite seq_S, fold_left_app, IH. simpl. ring.
Qed.

Lemma fold_left_fadd_seq (s n : nat) (v : nat -> F) (a : F) :
  fold_left fadd (v <$> seq s n) a
  = (a + big_sum n (fun i => v (s + i)%nat))%F.
Proof.
  induction n as [|n IH].
  - simpl. ring.
  - rewrite seq_S, fmap_app, fold_left_app, IH. simpl. ring.
Qed.

Lemma esum_big_sum (n : nat) (v : nat -> F) :
  esum (v <$> seq 0 n) = big_sum n v.
Proof.
  destruct n as [|n]; [done|].
  change (esum (v <$> seq 0 (S n)))
    with (fold_left fadd (v <$> seq 1 n) (v 0)).
  rewrite fold_left_fadd_seq.
  change (S n) with (1 + n). rewrite big_sum_add. simpl. ring.
Qed.
End Sums.

(** ** The loops compute the formulas *)

Lemma of_int_NHW {F : Type} {arith : Arith F} {exact : ExactArith F}
    (N H W : nat) :
  of_int (Z.of_nat (N * H * W))
  = (of_int (Z.of_nat N) * of_int (Z.of_nat H) * of_int (Z.of_nat W))%F.
Proof. by rewrite !Nat2Z.inj_mul, !of_int_mul. Qed.

Section ExactMajor.
Context {F : Type} {arith : Arith F} {exact : ExactArith F}.
Add Ring F_ring_major : exact_ring.

Variables N C H W : nat.
Variable st : OpState F.
Hypothesis wf : WellFormed NCHW N C H W st.

Local Abbreviation X := (data (INPUT st)).
Local Abbreviation dY := (data (OUTPUT_GRAD st)).
Local Abbreviation scale := (data (SCALE st)).
Local Abbreviation mean := (data (SAVED_MEAN st)).
Local Abbreviation inv_var := (data (SAVED_INV_VAR st)).

Lemma coeff_NCHW (buf : list F) (n c h w : nat) :
  coeff buf (H * W) (h * W + w) (n * C + c) = elem NCHW C H W buf n c h w.
Proof. unfold coeff, elem, offset. simpl. f_equal. lia. Qed.

Lemma bias_NCHW_spec (c : nat) :
  bias_NCHW N C H W st c = biasGrad_spec NCHW N C H W dY c.
Proof.
  unfold bias_NCHW.
  rewrite (fold_left_big_sum N (fun n => esum (col dY (H * W) (n * C + c)))).
  unfold biasGrad_spec, sum_nhw.
  transitivity (big_sum N (fun n => esum (col dY (H * W) (n * C + c))));
    [ring|].
  apply big_sum_ext. intros n _. unfold col.
  rewrite esum_big_sum, big_sum_mul.
  apply big_sum_ext. intros h _. apply big_sum_ext. intros w _.
  apply coeff_NCHW.
Qed.

Lemma scale_NCHW_spec (c : nat) :
  scale_NCHW N C H W st c = scaleGrad_spec NCHW N C H W X dY mean inv_var c.
Proof.
  unfold scale_NCHW.
  rewrite (fold_left_big_sum N
    (fun n => esum ((fun i => (coeff X (H * W) i (n * C + c) - mean !!! c)
                            * inv_var !!! c
                            * coeff dY (H * W) i (n * C + c))%F
                    <$> seq 0 (H * W)))).
  unfold scaleGrad_spec, sum_nhw.
  match goal with |- (0 + ?s)%F = _ => transitivity s; [ring|] end.
  apply big_sum_ext. intros n _.
  rewrite esum_big_sum, big_sum_mul.
  apply big_sum_ext. intros h _. apply big_sum_ext. intros w _.
  by rewrite !coeff_NCHW.
Qed.

Lemma computed_NCHW (uninit : nat -> nat -> F) (dchecks : bool) :
  exists st', RunOnDevice uninit dchecks NCHW st = Returned true st'
              /\ Computed NCHW N C H W st st'.
Proof.
  eexists. split; [by apply RunOnDevice_NCHW|].
  destruct (reduce_loop N C H W st wf) as (_ & Hb & Hs).
  destruct (propagate_loop N C H W st wf (quotients st)) as (_ & Hx).
  pose proof wf as [HXd HX HdY Hsd Hsc Hm Hiv HfNHW HfNC HfHW].
  split; simpl; try done.
  - intros c Hc.
    destruct (reduce_all_entries N C H W st wf c Hc) as (-> & _).
    apply bias_NCHW_spec.
  - intros c Hc.
    destruct (reduce_all_entries N C H W st wf c Hc) as (_ & ->).
    apply scale_NCHW_spec.
  - intros n c h w Hn Hc Hh Hw.
    rewrite <- coeff_NCHW. unfold coeff.
    rewrite propagate_all_entries by (done || nia).
    assert ((n * C + c) mod C = c) as ->.
    { rewrite Nat.add_comm, Nat.Div0.mod_add. by apply Nat.mod_small. }
    unfold inputGrad_spec, scaleInvVarNHW.
    rewrite NHW_fits by done. rewrite !coeff_NCHW.
    rewrite (of_int_NHW N H W). ring.
Qed.
End ExactMajor.

Section ExactMinor.
Context {F : Type} {arith : Arith F} {exact : ExactArith F}.
Add Ring F_ring_minor : exact_ring.

Variables N C H W : nat.
Variable st : OpState F.
Hypothesis wf : WellFormed NHWC N C H W st.

Local Abbreviation X := (data (INPUT st)).
Local Abbreviation dY := (data (OUTPUT_GRAD st)).
Local Abbreviation scale := (data (SCALE st)).
Local Abbreviation mean := (data (SAVED_MEAN st)).
Local Abbreviation inv_var := (data (SAVED_INV_VAR st)).

Lemma big_sum_nhw (g : nat -> F) :
  big_sum (N * H * W) g
  = sum_nhw N H W (fun n h w => g ((n * H + h) * W + w)).
Proof.
  unfold sum_nhw. rewrite big_sum_mul, big_sum_mul. done.
Qed.

Lemma bias_NHWC_spec (c : nat) :
  bias_NHWC N C H W st c = biasGrad_spec NHWC N C H W dY c.
Proof.
  unfold bias_NHWC.
  rewrite (fold_left_big_sum (N * H * W) (fun j => coeff dY C c j)).
  rewrite big_sum_nhw.
  match goal with |- (0 + ?s)%F = _ => transitivity s; [ring|] end.
  done.
Qed.

Lemma scale_NHWC_spec (c : nat) :
  scale_NHWC N C H W st c = scaleGrad_spec NHWC N C H W X dY mean inv_var c.
Proof.
  unfold scale_NHWC.
  rewrite (fold_left_big_sum (N * H * W)
    (fun j => ((coeff X C c j - mean !!! c) * inv_var !!! c
               * coeff dY C c j)%F)).
  rewrite big_sum_nhw.
  match goal with |- (0 + ?s)%F = _ => transitivity s; [ring|] end.
  done.
Qed.

Lemma dYRowSum_spec (c : nat) :
  dYRowSum dY (Z.of_nat N) (Z.of_nat C) (Z.of_nat H) (Z.of_nat W) c
  = biasGrad_spec NHWC N C H W dY c.
Proof.
  pose proof wf as [HXd HX HdY Hsd Hsc Hm Hiv HfNHW HfNC HfHW].
  unfold dYRowSum, row.
  rewrite rows_NHWC_nat, cols_NHWC_fits by done.
  rewrite esum_big_sum, big_sum_nhw. done.
Qed.

Lemma dYMulXMinusMeanRowSum_spec (c : nat) :
  (inv_var !!! c
   * dYMulXMinusMeanRowSum X dY mean
       (Z.of_nat N) (Z.of_nat C) (Z.of_nat H) (Z.of_nat W) c)%F
  = scaleGrad_spec NHWC N C H W X dY mean inv_var c.
Proof.
  pose proof wf as [HXd HX HdY Hsd Hsc Hm Hiv HfNHW HfNC HfHW].
  unfold dYMulXMinusMeanRowSum, XMinusMean.
  rewrite rows_NHWC_nat, cols_NHWC_fits by done.
  rewrite esum_big_sum, big_sum_scale, big_sum_nhw.
  unfold scaleGrad_spec, sum_nhw.
  apply big_sum_ext. intros n _. apply big_sum_ext. intros h _.
  apply big_sum_ext. intros w _.
  unfold elem, offset, coeff. simpl. ring.
Qed.

Lemma computed_NHWC (uninit : nat -> nat -> F) (dchecks : bool) :
  exists st', RunOnDevice uninit dchecks NHWC st = Returned true st'
              /\ Computed NHWC N C H W st st'.
Proof.
  eexists. split; [by apply RunOnDevice_NHWC|].
  destruct (position_loop N C H W st wf (quotients st)) as (_ & Hb & Hs & Hx).
  pose proof wf as [HXd HX HdY Hsd Hsc Hm Hiv HfNHW HfNC HfHW].
  split; simpl; try done.
  - intros c Hc. rewrite position_all_bias by done. apply bias_NHWC_spec.
  - intros c Hc. rewrite position_all_scale by done. apply scale_NHWC_spec.
  - intros n c h w Hn Hc Hh Hw.
    unfold inputGrad_spec.
    rewrite position_all_bias, position_all_scale by done.
    rewrite bias_NHWC_spec, scale_NHWC_spec.
    unfold elem at 1. unfold offset. simpl.
    rewrite position_all_grad by (done || nia).
    unfold grad_NHWC. rewrite dYRowSum_spec.
    rewrite <- dYMulXMinusMeanRowSum_spec.
    unfold scaleInvVarNHW, invVarSqr, XMinusMean.
    rewrite NHW_fits, rows_NHWC_nat by done.
    rewrite (of_int_NHW N H W).
    unfold elem, offset, coeff. simpl. ring.
Qed.
End ExactMinor.

(** ** Logical indices and storage offsets *)

Lemma offset_lt (o : StorageOrder) (N C H W n c h w : nat) :
  n < N -> c < C -> h < H -> w < W ->
  offset o C H W n c h w < N * C * H * W.
Proof.
  intros Hn Hc Hh Hw. unfold offset.
  destruct (is_NCHW o).
  - assert (n * C + c < N * C) by nia.
    assert ((n * C + c) * H + h < N * C * H) by nia. nia.
  - assert (n * H + h < N * H) by nia.
    assert ((n * H + h) * W + w < N * H * W) by nia. nia.
Qed.

Lemma split_index (m r p : nat) :
  p < m * r -> exists q i, q < m /\ i < r /\ p = q * r + i.
Proof.
  intros Hp. assert (0 < r) by (destruct r; lia).
  exists (p / r), (p mod r). split; [|split].
  - apply Nat.Div0.div_lt_upper_bound. lia.
  - apply Nat.mod_upper_bound. lia.
  - rewrite (Nat.div_mod_eq p r) at 1. lia.
Qed.

(** Every storage position is the offset of a logical element. *)
Lemma offset_onto (o : StorageOrder) (N C H W p : nat) :
  p < N * C * H * W ->
  exists n c h w, n < N /\ c < C /\ h < H /\ w < W
                  /\ offset o C H W n c h w = p.
Proof.
  intros Hp. unfold offset. destruct (is_NCHW o).
  - destruct (split_index (N * C * H) W p) as (q1 & w & Hq1 & Hw & ->);
      [lia|].
    destruct (split_index (N * C) H q1) as (q2 & h & Hq2 & Hh & ->); [lia|].
    destruct (split_index N C q2) as (n & c & Hn & Hc & ->); [lia|].
    by exists n, c, h, w.
  - destruct (split_index (N * H * W) C p) as (q1 & c & Hq1 & Hc & ->);
      [lia|].
    destruct (split_index (N * H) W q1) as (q2 & w & Hq2 & Hw & ->); [lia|].
    destruct (split_index N H q2) as (n & h & Hn & Hh & ->); [lia|].
    by exists n, c, h, w.
Qed.


(** ** The statements of the specification *)

Section Claims.
Context {F : Type} {arith : Arith F} {exact : ExactArith F}.
Add Ring F_ring_claims : exact_ring.

Variable uninit : nat -> nat -> F.
Variable dchecks : bool.

Lemma computed (o : StorageOrder) (N C H W : nat) (st : OpState F) :
  o <> UNKNOWN -> WellFormed o N C H W st ->
  exists st', RunOnDevice uninit dchecks o st = Returned true st'
              /\ Computed o N C H W st st'.
Proof.
  intros Ho wf. destruct o; [done | |].
  - by apply computed_NHWC.
  - by apply computed_NCHW.
Qed.

(** C1: in exact arithmetic, in either supported layout every element of
    the input gradient is
    [(scale[c] * invStd[c] / (N*H*W)) * (outputGrad * N*H*W - biasGrad[c]
     - (activation - mean[c]) * invStd[c] * scaleGrad[c])], with [biasGrad]
    and [scaleGrad] the fully reduced per-channel sums that the call
    returns; the elements [(n, c, h, w)] cover the whole of [inputGrad]. *)
Theorem inputGrad_formula (o : StorageOrder) (N C H W : nat)
    (st : OpState F) :
  o <> UNKNOWN -> WellFormed o N C H W st ->
  exists st',
    RunOnDevice uninit dchecks o st = Returned true st'
    /\ (forall n c h w, n < N -> c < C -> h < H -> w < W ->
          elem o C H W (data (INPUT_GRAD st')) n c h w
          = inputGrad_spec o N C H W (data (INPUT st))
              (data (OUTPUT_GRAD st)) (data (SCALE st))
              (data (SAVED_MEAN st)) (data (SAVED_INV_VAR st))
              (data (BIAS_GRAD st')) (data (SCALE_GRAD st')) n c h w)
    /\ (forall c, c < C ->
          data (BIAS_GRAD st') !!! c
          = biasGrad_spec o N C H W (data (OUTPUT_GRAD st)) c
          /\ data (SCALE_GRAD st') !!! c
             = scaleGrad_spec o N C H W (data (INPUT st))
                 (data (OUTPUT_GRAD st)) (data (SAVED_MEAN st))
                 (data (SAVED_INV_VAR st)) c)
    /\ length (data (INPUT_GRAD st')) = N * C * H * W
    /\ (forall p, p < length (data (INPUT_GRAD st')) ->
          exists n c h w, n < N /\ c < C /\ h < H /\ w < W
                          /\ offset o C H W n c h w = p).
Proof.
  intros Ho wf. destruct (computed o N C H W st Ho wf) as (st' & Hrun & Hc).
  destruct Hc as [Hin HdXd HdXl HdSd HdSl HdBd HdBl Hbias Hscale Hgrad].
  exists st'. repeat split; try done.
  - by apply Hbias.
  - by apply Hscale.
  - intros p Hp. apply offset_onto. by rewrite <- HdXl.
Qed.

Lemma sum_nhw_ext (N H W : nat) (f g : nat -> nat -> nat -> F) :
  (forall n h w, n < N -> h < H -> w < W -> f n h w = g n h w) ->
  sum_nhw N H W f = sum_nhw N H W g.
Proof.
  intros Hfg. unfold sum_nhw.
  apply big_sum_ext. intros n Hn. apply big_sum_ext. intros h Hh.
  apply big_sum_ext. intros w Hw. by apply Hfg.
Qed.


(** C2: in exact arithmetic, after the call [biasGrad[c]] is the sum over
    all [(n, h, w)] of [outputGrad[n,c,h,w]] and [scaleGrad[c]] the sum of
    [(activation[n,c,h,w] - mean[c]) * invStd[c] * outputGrad[n,c,h,w]];
    the traversal starts from a state in which both accumulators are
    zero. *)
Theorem reduction_sums (o : StorageOrder) (N C H W : nat) (st : OpState F) :
  o <> UNKNOWN -> WellFormed o N C H W st ->
  exists st0 st',
    prepare uninit (Z.of_nat C) st = Some st0
    /\ data (BIAS_GRAD st0) = replicate C 0%F
    /\ data (SCALE_GRAD st0) = replicate C 0%F
    /\ RunOnDevice uninit dchecks o st
       = switch_order o (Z.of_nat N) (Z.of_nat C) (Z.of_nat H) (Z.of_nat W)
           st0
    /\ RunOnDevice uninit dchecks o st = Returned true st'
    /\ (forall c, c < C ->
          data (BIAS_GRAD st') !! c
          = Some (biasGrad_spec o N C H W (data (OUTPUT_GRAD st)) c)
          /\ data (SCALE_GRAD st') !! c
             = Some (scaleGrad_spec o N C H W (data (INPUT st))
                       (data (OUTPUT_GRAD st)) (data (SAVED_MEAN st))
                       (data (SAVED_INV_VAR st)) c)).
Proof.
  intros Ho wf. destruct (computed o N C H W st Ho wf) as (st' & Hrun & Hc).
  destruct Hc as [Hin HdXd HdXl HdSd HdSl HdBd HdBl Hbias Hscale Hgrad].
  exists (prepared uninit C st), st'.
  split; [apply prepare_ok, wf|].
  do 2 (split; [done|]).
  split; [by apply checks_pass|].
  split; [done|].
  intros c Hc.
  rewrite !list_lookup_lookup_total_lt by lia.
  by rewrite Hbias, Hscale.
Qed.


End Claims.

(** C6: in exact arithmetic, the same logical tensor in the two layouts
    gives the same sum over channels of [scaleGrad] and of [biasGrad]
    (indeed the same vectors). *)
Theorem layout_invariance {F : Type} {arith : Arith F} {exact : ExactArith F}
    (uninit1 uninit2 : nat -> nat -> F) (dchecks1 dchecks2 : bool)
    (N C H W : nat) (st1 st2 : OpState F) :
  WellFormed NCHW N C H W st1 -> WellFormed NHWC N C H W st2 ->
  (forall n c h w, n < N -> c < C -> h < H -> w < W ->
     elem NCHW C H W (data (INPUT st1)) n c h w
     = elem NHWC C H W (data (INPUT st2)) n c h w) ->
  (forall n c h w, n < N -> c < C -> h < H -> w < W ->
     elem NCHW C H W (data (OUTPUT_GRAD st1)) n c h w
     = elem NHWC C H W (data (OUTPUT_GRAD st2)) n c h w) ->
  data (SAVED_MEAN st1) = data (SAVED_MEAN st2) ->
  data (SAVED_INV_VAR st1) = data (SAVED_INV_VAR st2) ->
  exists r1 r2,
    RunOnDevice uninit1 dchecks1 NCHW st1 = Returned true r1
    /\ RunOnDevice uninit2 dchecks2 NHWC st2 = Returned true r2
    /\ big_sum C (fun c => data (SCALE_GRAD r1) !!! c)
       = big_sum C (fun c => data (SCALE_GRAD r2) !!! c)
    /\ big_sum C (fun c => data (BIAS_GRAD r1) !!! c)
       = big_sum C (fun c => data (BIAS_GRAD r2) !!! c).
Proof.
  intros wf1 wf2 HX HdY Hmean Hinv.
  destruct (computed uninit1 dchecks1 NCHW N C H W st1) as (r1 & Hrun1 & Hc1);
    [done | done |].
  destruct (computed uninit2 dchecks2 NHWC N C H W st2) as (r2 & Hrun2 & Hc2);
    [done | done |].
  destruct Hc1 as [_ _ _ _ _ _ _ Hbias1 Hscale1 _].
  destruct Hc2 as [_ _ _ _ _ _ _ Hbias2 Hscale2 _].
  exists r1, r2. do 2 (split; [done|]).
  split; apply big_sum_ext; intros c Hc.
  - rewrite Hscale1, Hscale2 by done. unfold scaleGrad_spec.
    apply sum_nhw_ext. intros n h w Hn Hh Hw.
    by rewrite HX, HdY, Hmean, Hinv.
  - rewrite Hbias1, Hbias2 by done. unfold biasGrad_spec.
    apply sum_nhw_ext. intros n h w Hn Hh Hw. by apply HdY.
Qed.

(** ** The same sentences in [float] *)

(** Exact arithmetic is not a proviso that [float] meets: its sum is not
    associative. *)
Lemma float_not_exact : ~ ExactArith Binary32.float.
Proof.
  intros exact.
  pose proof (Radd_assoc (@exact_ring _ _ exact)
                (Binary32.of_Z 16777216) (Binary32.of_Z 1)
                (Binary32.of_Z 1)) as Hassoc.
  vm_compute in Hassoc. discriminate.
Qed.

(** In NHWC line 75 squares [invStd] before line 82 multiplies by
    [x - mean = 0]: [inf * 0] is not a number, where the formula has
    [0 * 2^64 * 0 = 0] and the value [-2^64]. *)
Lemma inputGrad_float_counterexample :
  ~ inputGrad_claim Examples.junk true NHWC 2 1 1 1 Rounding.squared_overflow.
Proof.
  intros Hclaim.
  destruct Hclaim as (st' & Hrun & Hgrad).
  - done.
  - split; try reflexivity; by vm_compute.
  - vm_compute in Hrun. injection Hrun as <-.
    specialize (Hgrad 0 0 0 0). vm_compute in Hgrad.
    by specialize (Hgrad ltac:(lia) ltac:(lia) ltac:(lia) ltac:(lia)).
Qed.

(** In NHWC line 77 adds the output gradient element by element:
    [2^24 + 0 + 1 + 1 - 2^24 + 0] is [0] in [float], and the sum is 2. *)
Lemma reduction_float_counterexample :
  ~ reduction_claim Examples.junk true NHWC 3 1 2 1
      (Rounding.absorbing [3; 2; 1; 1]).
Proof.
  intros Hclaim.
  destruct Hclaim as (st' & Hrun & Hsums).
  - done.
  - split; try reflexivity; by vm_compute.
  - vm_compute in Hrun. injection Hrun as <-.
    destruct (Hsums 0) as [Hbias _]; [lia|].
    vm_compute in Hbias. discriminate.
Qed.

(** The same output gradient gives [biasGrad = [2]] in NCHW, where line 53
    adds the sums [2^24], [2] and [-2^24] of the three blocks, and [[0]] in
    NHWC. *)
Lemma layout_float_counterexample :
  ~ layout_claim Examples.junk Examples.junk true true 3 1 2 1
      (Rounding.absorbing [3; 1; 2; 1]) (Rounding.absorbing [3; 2; 1; 1]).
Proof.
  intros Hclaim.
  destruct Hclaim as (r1 & r2 & Hrun1 & Hrun2 & _ & Hbias).
  - split; try reflexivity; by vm_compute.
  - split; try reflexivity; by vm_compute.
  - intros n c h w Hn Hc Hh Hw.
    destruct c as [|c]; [|lia]. destruct w as [|w]; [|lia].
    destruct n as [|[|[|n]]]; [| | |lia]; destruct h as [|[|h]];
      try lia; reflexivity.
  - intros n c h w Hn Hc Hh Hw.
    destruct c as [|c]; [|lia]. destruct w as [|w]; [|lia].
    destruct n as [|[|[|n]]]; [| | |lia]; destruct h as [|[|h]];
      try lia; reflexivity.
  - reflexivity.
  - reflexivity.
  - vm_compute in Hrun1. injection Hrun1 as <-.
    vm_compute in Hrun2. injection Hrun2 as <-.
    vm_compute in Hbias. discriminate.
Qed.



(** ** The inputs are only read *)

Section Frame.
Context {F : Type} {arith : Arith F}.
Variable uninit : nat -> nat -> F.





End Frame.

Lemma numerical_wf (o : StorageOrder) dX dScale dBias q :
  WellFormed o 2 1 1 1 (Examples.numerical dX dScale dBias q).
Proof.
  split; try reflexivity; try (by destruct o); by vm_compute.
Qed.

(** C3: on [N = 2], [C = H = W = 1], [activation = [1, 3]], [scale = [2]],
    [savedMean = [2]], [savedInvStd = [1]], [outputGrad = [1, 1]] the call
    produces [biasGrad = [2]], [scaleGrad = [0]], [inputGrad = [0, 0]], in
    binary32 arithmetic and in both layouts. *)
Theorem numerical_check (uninit : nat -> nat -> Binary32.float)
    (dchecks : bool) (dX dScale dBias : Tensor Binary32.float) (q : nat) :
  let zero := Binary32.of_Z 0 in
  let two := Binary32.of_Z 2 in
  yields (RunOnDevice uninit dchecks NCHW
            (Examples.numerical dX dScale dBias q))
    [two] [zero] [zero; zero]
  /\ yields (RunOnDevice uninit dchecks NHWC
               (Examples.numerical dX dScale dBias q))
       [two] [zero] [zero; zero].
Proof.
  split.
  - eexists. split; [apply RunOnDevice_NCHW, numerical_wf|].
    by vm_compute.
  - eexists. split; [apply RunOnDevice_NHWC, numerical_wf|].
    by vm_compute.
Qed.

(** ** Shape checks *)

(** A saved mean of the wrong length passes unnoticed, even in a debug
    build: the call returns and the sentinel is overwritten. *)
Lemma ShapeMismatch_counterexample :
  ~ ShapeMismatch_claim Examples.junk true NCHW 2 1 1 1 Examples.long_mean.
Proof.
  intros Hclaim.
  assert (RunOnDevice Examples.junk true NCHW Examples.long_mean
          = CheckFailed Examples.long_mean) as Hrun.
  { apply Hclaim. right. split; [done|]. right. left. by vm_compute. }
  vm_compute in Hrun. discriminate.
Qed.

Section Checks.
Context {F : Type} {arith : Arith F}.
Variable uninit : nat -> nat -> F.

Lemma no_check_without_dchecks (o : StorageOrder) (st st' : OpState F) :
  RunOnDevice uninit false o st <> CheckFailed st'.
Proof.
  unfold RunOnDevice. simpl.
  destruct (dim32 (INPUT st) 0); [|done].
  destruct (dim32 (INPUT st) 1); [|done].
  destruct (dim32 (INPUT st) 2); [|done].
  destruct (dim32 (INPUT st) 3); [|done].
  destruct (prepare _ _ _); [|done].
  unfold switch_order.
  destruct o; [done | |]; by destruct (_ : option (OpState F)).
Qed.

(** C4, amended: in a build where [DCHECK_EQ] is active, an activation whose
    rank is not 4, or a [scale] that is not a one-dimensional tensor of
    extent [C], makes the call fail the check and leaves every blob, the
    outputs included, as it was; with the checks compiled out no call fails
    a check. *)
Theorem shape_check (o : StorageOrder) (st : OpState F) :
  ndim (INPUT st) <> 4
  \/ (exists N C H W, dims (INPUT st) = layout_dims o N C H W
                      /\ dims (SCALE st) <> [C]) ->
  RunOnDevice uninit true o st = CheckFailed st
  /\ forall st', RunOnDevice uninit false o st <> CheckFailed st'.
Proof.
  intros Hbad. split; [|intros st'; apply no_check_without_dchecks].
  unfold RunOnDevice. simpl.
  destruct Hbad as [Hrank | (N & C & H & W & HXd & Hsd)].
  - by rewrite (proj2 (Nat.eqb_neq _ _) Hrank).
  - destruct (dim32_layout o N C H W (INPUT st) HXd)
      as (-> & -> & -> & -> & ->). simpl.
    destruct (ndim (SCALE st) =? 1) eqn:Hnd; [|done]. simpl.
    apply Nat.eqb_eq in Hnd. unfold ndim in Hnd.
    destruct (dims (SCALE st)) as [|d [|? ?]] eqn:Hds; try done.
    assert (d <> C) as Hd by congruence.
    assert (forall z, dim_is (SCALE st) 0 z = (Z.of_nat d =? z)%Z) as Hdim.
    { intros z. unfold dim_is, dim32. by rewrite Hds. }
    destruct (is_NCHW o); rewrite Hdim;
      rewrite (proj2 (Z.eqb_neq _ _)) by lia; done.
Qed.

(** C5, amended: with an unrecognised layout tag, a rank-4 activation and a
    [scale] as long as the activation's last extent, the call throws
    "Unknown storage order" instead of picking a layout.  By then the
    outputs have been resized and [biasGrad] and [scaleGrad] cleared:
    [inputGrad] has the activation's shape and elements the call never
    wrote, [biasGrad] and [scaleGrad] are zero vectors of length [C].  The
    inputs are as they were. *)
Theorem unknown_order_throws (dchecks : bool) (N C H W : nat)
    (st : OpState F) :
  dims (INPUT st) = [N; H; W; C] ->
  dims (SCALE st) = [C] ->
  exists st',
    RunOnDevice uninit dchecks UNKNOWN st
    = Thrown "Unknown storage order: " st'
    /\ inputs_of st' = inputs_of st
    /\ INPUT_GRAD st' = ResizeLike uninit 0 (INPUT_GRAD st) (INPUT st)
    /\ dims (INPUT_GRAD st') = dims (INPUT st)
    /\ SCALE_GRAD st' = mkTensor [C] (replicate C 0%F)
    /\ BIAS_GRAD st' = mkTensor [C] (replicate C 0%F).
Proof.
  intros HXd Hsd. exists (prepared uninit C st).
  split; [by rewrite (checks_pass_dims uninit dchecks N C H W st UNKNOWN)|].
  repeat split. simpl. apply ResizeLike_dims.
Qed.
End Checks.

(** The exception arrives after the sentinels in [biasGrad] and [scaleGrad]
    have been cleared. *)
Lemma UnsupportedLayout_counterexample :
  ~ UnsupportedLayout_claim Examples.junk true Examples.sentinel.
Proof.
  intros (msg & st' & Hrun & Hout).
  vm_compute in Hrun. injection Hrun as _ <-.
  vm_compute in Hout. discriminate.
Qed.

(** ** Empty extents *)


Section EmptyExtent.
Context {F : Type} {arith : Arith F}.
Hypothesis zero_plus_zero : (0 + 0 = 0 :> F)%F.
Variable uninit : nat -> nat -> F.
Variable dchecks : bool.


End EmptyExtent.

(** ** The statements at concrete inputs *)

Lemma inputGrad_formula_witness :
  exists st',
    RunOnDevice Examples.qjunk true NCHW Examples.qnumerical
    = Returned true st'
    /\ length (data (INPUT_GRAD st')) = 2.
Proof.
  destruct (inputGrad_formula Examples.qjunk true NCHW 2 1 1 1
              Examples.qnumerical) as (st' & Hrun & _ & _ & Hlen & _).
  - discriminate.
  - split; try reflexivity; by vm_compute.
  - exists st'. split; [exact Hrun | exact Hlen].
Defined.

Lemma reduction_sums_witness :
  exists st',
    RunOnDevice Examples.qjunk false NHWC Examples.qnumerical
    = Returned true st'
    /\ data (BIAS_GRAD st') !! 0
       = Some (biasGrad_spec NHWC 2 1 1 1
                 (data (OUTPUT_GRAD Examples.qnumerical)) 0).
Proof.
  destruct (reduction_sums Examples.qjunk false NHWC 2 1 1 1
              Examples.qnumerical)
    as (st0 & st' & _ & _ & _ & _ & Hrun & Hsums).
  - discriminate.
  - split; try reflexivity; by vm_compute.
  - exists st'. split; [exact Hrun|]. apply (Hsums 0). lia.
Defined.

Lemma layout_invariance_witness :
  exists r1 r2,
    RunOnDevice Examples.qjunk true NCHW Examples.qmajor = Returned true r1
    /\ RunOnDevice Examples.qjunk true NHWC Examples.qminor = Returned true r2
    /\ big_sum 2 (fun c => data (SCALE_GRAD r1) !!! c)
       = big_sum 2 (fun c => data (SCALE_GRAD r2) !!! c)
    /\ big_sum 2 (fun c => data (BIAS_GRAD r1) !!! c)
       = big_sum 2 (fun c => data (BIAS_GRAD r2) !!! c).
Proof.
  apply (layout_invariance Examples.qjunk Examples.qjunk true true 1 2 2 1).
  - split; try reflexivity; by vm_compute.
  - split; try reflexivity; by vm_compute.
  - intros n c h w Hn Hc Hh Hw.
    destruct n as [|n]; [|lia]. destruct w as [|w]; [|lia].
    destruct c as [|[|c]]; [| |lia]; destruct h as [|[|h]];
      try lia; reflexivity.
  - intros n c h w Hn Hc Hh Hw.
    destruct n as [|n]; [|lia]. destruct w as [|w]; [|lia].
    destruct c as [|[|c]]; [| |lia]; destruct h as [|[|h]];
      try lia; reflexivity.
  - reflexivity.
  - reflexivity.
Defined.



Lemma shape_check_witness :
  RunOnDevice Examples.junk true NCHW Examples.long_scale
  = CheckFailed Examples.long_scale
  /\ forall st',
       RunOnDevice Examples.junk false NCHW Examples.long_scale
       <> CheckFailed st'.
Proof.
  apply shape_check. right. exists 2, 1, 1, 1.
  split; [reflexivity | discriminate].
Defined.

Lemma unknown_order_throws_witness :
  exists st',
    RunOnDevice Examples.junk true UNKNOWN Examples.sentinel
    = Thrown "Unknown storage order: " st'
    /\ inputs_of st' = inputs_of Examples.sentinel
    /\ INPUT_GRAD st'
       = ResizeLike Examples.junk 0 (INPUT_GRAD Examples.sentinel)
           (INPUT Examples.sentinel)
    /\ dims (INPUT_GRAD st') = dims (INPUT Examples.sentinel)
    /\ SCALE_GRAD st' = mkTensor [1] (replicate 1 0%F)
    /\ BIAS_GRAD st' = mkTensor [1] (replicate 1 0%F).
Proof.
  apply (unknown_order_throws Examples.junk true 2 1 1 1); reflexivity.
Defined.


(** * Further properties of [RunOnDevice] *)

(** ** Loops in general *)

Lemma for_each_invariant {S : Type} (body : nat -> S -> option S)
    (Inv : S -> Prop) (idx : list nat) (s s' : S) :
  (forall i s s', body i s = Some s' -> Inv s -> Inv s') ->
  Inv s -> for_each body idx s = Some s' -> Inv s'.
Proof.
  intros Hbody. revert s. induction idx as [|i idx IH]; intros s Hs; simpl.
  - by intros [= <-].
  - destruct (body i s) as [s1|] eqn:Hs1; [|done].
    apply IH. by eapply Hbody.
Qed.

Lemma for_each_fails {S : Type} (body : nat -> S -> option S)
    (idx : list nat) (i : nat) (s : S) :
  i ∈ idx -> (forall s, body i s = None) -> for_each body idx s = None.
Proof.
  intros Hi Hfail. revert s.
  induction idx as [|j idx IH]; intros s; simpl.
  - by apply elem_of_nil in Hi.
  - destruct (body j s) as [s1|] eqn:Hs1; [|done].
    apply elem_of_cons in Hi as [->|Hi].
    + by rewrite Hfail in Hs1.
    + by apply IH.
Qed.

(** ** The shapes of the outputs *)

Section OutputShapes.
Context {F : Type} {arith : Arith F}.
Variable uninit : nat -> nat -> F.

Lemma setZero_length (n : nat) (buf buf' : list F) :
  setZero n buf = Some buf' -> length buf' = length buf.
Proof.
  unfold setZero, map_ok. destruct (n <=? length buf) eqn:Hn; [|done].
  apply Nat.leb_le in Hn. intros [= <-].
  rewrite length_app, length_replicate, length_drop. lia.
Qed.

Lemma reduce_block_length X dY mean inv_var C H W nc
    (acc acc' : list F * list F) :
  reduce_block X dY mean inv_var C H W nc acc = Some acc' ->
  length acc'.1 = length acc.1 /\ length acc'.2 = length acc.2.
Proof.
  unfold reduce_block. destruct (reduce_ok _ _ _ _ _ _ _ _ _); [|done].
  intros [= <-]. unfold reduce_step. simpl. by rewrite !length_insert.
Qed.

Lemma propagate_block_length X dY scale mean inv_var N C H W dBias dScale nc
    (s s' : list F * nat) :
  propagate_block X dY scale mean inv_var N C H W dBias dScale nc s = Some s'
  -> length s'.1 = length s.1.
Proof.
  unfold propagate_block.
  destruct (propagate_ok _ _ _ _ _ _ _ _ _ _ _ _); [|done].
  intros [= <-]. unfold propagate_step. simpl. by rewrite length_inserts.
Qed.

Lemma position_block_length X dY scale mean inv_var N C H W nhw
    (s s' : list F * list F * list F * nat) :
  position_block X dY scale mean inv_var N C H W nhw s = Some s' ->
  length s'.1.1.1 = length s.1.1.1 /\ length s'.1.1.2 = length s.1.1.2
  /\ length s'.1.2 = length s.1.2.
Proof.
  unfold position_block.
  destruct (position_ok _ _ _ _ _ _ _ _ _ _ _); [|done].
  intros [= <-]. destruct s as [[[b s] x] q]. simpl.
  by rewrite !length_inserts.
Qed.

Lemma prepare_shapes (C : Z) (st st1 : OpState F) :
  prepare uninit C st = Some st1 -> shaped_like_inputs st st1.
Proof.
  unfold prepare. intros Hp.
  destruct (setZero _ (data (ResizeLike uninit 2 _ _))) as [b|] eqn:Hb;
    simpl in Hp; [|done].
  destruct (setZero _ (data (ResizeLike uninit 1 _ _))) as [s|] eqn:Hs;
    simpl in Hp; [|done].
  injection Hp as <-.
  apply setZero_length in Hb, Hs.
  rewrite ResizeLike_length in Hb, Hs.
  unfold shaped_like_inputs. simpl.
  by rewrite !ResizeLike_dims, ResizeLike_length.
Qed.

Lemma run_NCHW_shapes (N C H W : Z) (st0 st st' : OpState F) :
  run_NCHW N C H W st = Some st' ->
  shaped_like_inputs st0 st -> shaped_like_inputs st0 st'.
Proof.
  unfold run_NCHW. intros Hr (HXd & HXl & HSd & HSl & HBd & HBl).
  destruct (setZero _ _) as [dX0|] eqn:HdX0; simpl in Hr; [|done].
  destruct (for_loop _ (reduce_block _ _ _ _ _ _ _) _) as [acc|] eqn:Hacc;
    simpl in Hr; [|done].
  destruct (for_loop _ (propagate_block _ _ _ _ _ _ _ _ _ _ _) _)
    as [s|] eqn:Hs; simpl in Hr; [|done].
  injection Hr as <-.
  apply setZero_length in HdX0.
  apply (for_each_invariant _
           (fun a => length a.1 = length (data (BIAS_GRAD st))
                     /\ length a.2 = length (data (SCALE_GRAD st))))
    in Hacc as [Hb Hsc]; [| |done].
  2:{ intros i a a' Ha [H1 H2].
      apply reduce_block_length in Ha as [-> ->]. done. }
  apply (for_each_invariant _ (fun a => length a.1 = length dX0))
    in Hs; [| |done].
  2:{ intros i a a' Ha H1. apply propagate_block_length in Ha. congruence. }
  unfold shaped_like_inputs. simpl. repeat split; congruence.
Qed.

Lemma run_NHWC_shapes (N C H W : Z) (st0 st st' : OpState F) :
  run_NHWC N C H W st = Some st' ->
  shaped_like_inputs st0 st -> shaped_like_inputs st0 st'.
Proof.
  unfold run_NHWC. intros Hr (HXd & HXl & HSd & HSl & HBd & HBl).
  destruct (setZero _ _) as [dX0|] eqn:HdX0; simpl in Hr; [|done].
  destruct (for_loop _ (position_block _ _ _ _ _ _ _ _ _) _)
    as [s|] eqn:Hs; simpl in Hr; [|done].
  injection Hr as <-.
  apply setZero_length in HdX0.
  apply (for_each_invariant _
           (fun a => length a.1.1.1 = length (data (BIAS_GRAD st))
                     /\ length a.1.1.2 = length (data (SCALE_GRAD st))
                     /\ length a.1.2 = length dX0))
    in Hs as (Hb & Hsc & Hx); [| |done].
  2:{ intros i a a' Ha (H1 & H2 & H3).
      apply position_block_length in Ha as (-> & -> & ->). done. }
  unfold shaped_like_inputs. simpl. repeat split; congruence.
Qed.

(** X1: whenever the call returns, on any blobs and in either build,
    [inputGrad] has the shape of the activation and [scaleGrad] and
    [biasGrad] have the shape of [scale], each holding as many elements as
    its shape says. *)
Theorem returned_shapes (dchecks : bool) (o : StorageOrder) (b : bool)
    (st st' : OpState F) :
  RunOnDevice uninit dchecks o st = Returned b st' ->
  shaped_like_inputs st st'.
Proof.
  unfold RunOnDevice.
  destruct (dchecks && negb (ndim (INPUT st) =? 4)); [done|].
  destruct (dim32 (INPUT st) 0); [|done].
  destruct (dim32 (INPUT st) 1); [|done].
  destruct (dim32 (INPUT st) 2); [|done].
  destruct (dim32 (INPUT st) 3); [|done].
  destruct (dchecks && negb (ndim (SCALE st) =? 1)); [done|].
  destruct (dchecks && negb (dim_is (SCALE st) 0 _)); [done|].
  destruct (prepare _ _ _) as [st1|] eqn:Hprep; [|done].
  apply prepare_shapes in Hprep.
  unfold switch_order. destruct o; [done | |].
  - destruct (run_NHWC _ _ _ _ _) as [st2|] eqn:Hrun; [|done].
    intros [= _ <-]. by eapply run_NHWC_shapes.
  - destruct (run_NCHW _ _ _ _ _) as [st2|] eqn:Hrun; [|done].
    intros [= _ <-]. by eapply run_NCHW_shapes.
Qed.
End OutputShapes.

Section Builds.
Context {F : Type} {arith : Arith F}.
Variable uninit : nat -> nat -> F.

(** X2: the checks only stop a call; a call that no check of the debug
    build stops ends in the release build exactly as in the debug build. *)
Theorem checks_only_stop (o : StorageOrder) (st : OpState F) :
  RunOnDevice uninit true o st = CheckFailed st
  \/ RunOnDevice uninit false o st = RunOnDevice uninit true o st.
Proof.
  unfold RunOnDevice. simpl.
  destruct (negb (ndim (INPUT st) =? 4)); [by left|].
  destruct (dim32 (INPUT st) 0); [|by right].
  destruct (dim32 (INPUT st) 1); [|by right].
  destruct (dim32 (INPUT st) 2); [|by right].
  destruct (dim32 (INPUT st) 3); [|by right].
  destruct (negb (ndim (SCALE st) =? 1)); [by left|].
  destruct (negb (dim_is (SCALE st) 0 _)); [by left|].
  by right.
Qed.

(** X3: the call returns only for the two layouts it knows, and then with
    [true]; the exception is thrown only for another tag. *)
Theorem dispatch (dchecks : bool) (o : StorageOrder) (st : OpState F) :
  match RunOnDevice uninit dchecks o st with
  | Returned b _ => b = true /\ (o = NCHW \/ o = NHWC)
  | Thrown _ _ => o = UNKNOWN
  | CheckFailed _ | Undefined => True
  end.
Proof.
  unfold RunOnDevice.
  destruct (dchecks && negb (ndim (INPUT st) =? 4)); [done|].
  destruct (dim32 (INPUT st) 0); [|done].
  destruct (dim32 (INPUT st) 1); [|done].
  destruct (dim32 (INPUT st) 2); [|done].
  destruct (dim32 (INPUT st) 3); [|done].
  destruct (dchecks && negb (ndim (SCALE st) =? 1)); [done|].
  destruct (dchecks && negb (dim_is (SCALE st) 0 _)); [done|].
  destruct (prepare _ _ _) as [st1|]; [|done].
  unfold switch_order. destruct o; [done | |].
  - destruct (run_NHWC _ _ _ _ _); [|done]. split; [done | by right].
  - destruct (run_NCHW _ _ _ _ _); [|done]. split; [done | by left].
Qed.

(** X4: with the checks compiled out, an activation of rank below 4 is read
    past the end of its shape. *)
Theorem low_rank_unchecked (o : StorageOrder) (st : OpState F) :
  ndim (INPUT st) < 4 -> RunOnDevice uninit false o st = Undefined.
Proof.
  unfold RunOnDevice, dim32, ndim. simpl. intros Hrank.
  destruct (dims (INPUT st)) as [|d0 [|d1 [|d2 [|d3 ds]]]]; simpl in *;
    try done. lia.
Qed.

(** X5: with the checks compiled out, a [scale] with fewer than [C]
    elements makes the clearing of [dBias] run past the end of its
    storage. *)
Theorem short_scale_unchecked (o : StorageOrder) (N C H W : nat)
    (st : OpState F) :
  dims (INPUT st) = layout_dims o N C H W ->
  numel (dims (SCALE st)) < C ->
  RunOnDevice uninit false o st = Undefined.
Proof.
  intros HXd Hshort. unfold RunOnDevice. simpl.
  destruct (dim32_layout o N C H W (INPUT st) HXd) as (_ & -> & -> & -> & ->).
  assert (prepare uninit (Z.of_nat C) st = None) as Hprep.
  { unfold prepare, setZero, map_ok.
    rewrite !ResizeLike_length, Nat2Z.id.
    rewrite (proj2 (Nat.leb_gt _ _)) by lia. done. }
  by destruct (is_NCHW o); rewrite Hprep.
Qed.
End Builds.

Section ShortGradient.
Context {F : Type} {arith : Arith F}.
Variable uninit : nat -> nat -> F.
Variable dchecks : bool.

(** X6: the shape of [outputGrad] is never looked at; when it holds fewer
    elements than the activation, the traversal reads past its end, in
    either build and in both layouts. *)
Theorem short_outputGrad (o : StorageOrder) (N C H W : nat)
    (st : OpState F) :
  o <> UNKNOWN ->
  dims (INPUT st) = layout_dims o N C H W ->
  dims (SCALE st) = [C] ->
  (Z.of_nat (N * H * W) <= INT_MAX)%Z ->
  (Z.of_nat (N * C) <= INT_MAX)%Z ->
  (Z.of_nat (H * W) <= INT_MAX)%Z ->
  length (data (OUTPUT_GRAD st)) < N * C * H * W ->
  RunOnDevice uninit dchecks o st = Undefined.
Proof.
  intros Ho HXd Hsd HfNHW HfNC HfHW Hshort.
  rewrite (checks_pass_dims uninit dchecks N C H W st o) by done.
  unfold switch_order. destruct o; [done | |].
  - assert (run_NHWC (Z.of_nat N) (Z.of_nat C) (Z.of_nat H) (Z.of_nat W)
              (prepared uninit C st) = None) as ->; [|done].
    unfold run_NHWC.
    destruct (setZero _ _) as [dX0|]; [|done]. simpl.
    rewrite cols_NHWC_fits by done.
    assert (0 < N * H * W) by nia. assert (0 < C) by nia.
    unfold for_loop.
    rewrite (for_each_fails _ _ (N * H * W - 1)); [done | |].
    + apply elem_of_seq. lia.
    + intros [[[b s] x] q]. unfold position_block, position_ok.
      assert (col_ok (data (OUTPUT_GRAD st)) (rows_NHWC (Z.of_nat C))
                (N * H * W - 1) = false) as ->.
      { unfold col_ok. rewrite rows_NHWC_nat.
        rewrite (proj2 (Nat.eqb_neq _ _)) by lia.
        rewrite (proj2 (Nat.leb_gt _ _)) by nia. done. }
      by rewrite !andb_false_r.
  - assert (run_NCHW (Z.of_nat N) (Z.of_nat C) (Z.of_nat H) (Z.of_nat W)
              (prepared uninit C st) = None) as ->; [|done].
    unfold run_NCHW.
    destruct (setZero _ _) as [dX0|]; [|done]. simpl.
    rewrite cols_NCHW_fits by done.
    assert (0 < N * C) by nia. assert (0 < H * W) by nia.
    unfold for_loop.
    rewrite (for_each_fails _ _ (N * C - 1)); [done | |].
    + apply elem_of_seq. lia.
    + intros [b s]. unfold reduce_block, reduce_ok.
      assert (col_ok (data (OUTPUT_GRAD st))
                (rows_NCHW (Z.of_nat H) (Z.of_nat W)) (N * C - 1) = false)
        as ->; [|done].
      unfold col_ok. rewrite rows_NCHW_fits by done.
      rewrite (proj2 (Nat.eqb_neq _ _)) by lia.
      rewrite (proj2 (Nat.leb_gt _ _)) by nia. done.
Qed.
End ShortGradient.

(** ** What the outputs depend on *)

Lemma fold_left_fst_indep {A I : Type} (step : I -> A * nat -> A * nat)
    (idx : list I) (a : A) (q q' : nat) :
  (forall i a q q', (step i (a, q)).1 = (step i (a, q')).1) ->
  (fold_left (fun s i => step i s) idx (a, q)).1
  = (fold_left (fun s i => step i s) idx (a, q')).1.
Proof.
  intros Hstep. revert a q q'.
  induction idx as [|i idx IH]; intros a q q'; simpl; [done|].
  specialize (Hstep i a q q').
  destruct (step i (a, q)) as [a1 q1], (step i (a, q')) as [a2 q2].
  simpl in Hstep. subst a2. apply IH.
Qed.

Section Dependence.
Context {F : Type} {arith : Arith F}.

Lemma propagate_all_data (N C H W : nat) (st : OpState F) (q q' : nat) :
  (propagate_all N C H W st q).1 = (propagate_all N C H W st q').1.
Proof. unfold propagate_all. by apply fold_left_fst_indep. Qed.

Lemma position_all_data (N C H W : nat) (st : OpState F) (q q' : nat) :
  (position_all N C H W st q).1 = (position_all N C H W st q').1.
Proof.
  unfold position_all.
  apply (fold_left_fst_indep
           (fun nhw s => position_step _ _ _ _ _ _ _ _ _ nhw s)).
  by intros i [[b s] x] q1 q2.
Qed.

Lemma WellFormed_inputs (o : StorageOrder) (N C H W : nat)
    (st1 st2 : OpState F) :
  inputs_of st1 = inputs_of st2 ->
  WellFormed o N C H W st1 -> WellFormed o N C H W st2.
Proof.
  unfold inputs_of. intros [= HX HS HdY HM HIV] [].
  split; congruence.
Qed.

(** X7: on well-formed inputs the three outputs are determined by the five
    inputs alone: neither what the output blobs held before, nor what fresh
    storage holds, nor the build changes them. *)
Theorem outputs_from_inputs (uninit1 uninit2 : nat -> nat -> F)
    (dchecks1 dchecks2 : bool) (o : StorageOrder) (N C H W : nat)
    (st1 st2 : OpState F) :
  o <> UNKNOWN -> WellFormed o N C H W st1 ->
  inputs_of st1 = inputs_of st2 ->
  exists r1 r2,
    RunOnDevice uninit1 dchecks1 o st1 = Returned true r1
    /\ RunOnDevice uninit2 dchecks2 o st2 = Returned true r2
    /\ outputs_of r1 = outputs_of r2.
Proof.
  intros Ho wf1 Hin.
  pose proof (WellFormed_inputs o N C H W st1 st2 Hin wf1) as wf2.
  destruct st1 as [X1 S1 dY1 M1 IV1 a1 b1 c1 q1].
  destruct st2 as [X2 S2 dY2 M2 IV2 a2 b2 c2 q2].
  unfold inputs_of in Hin. simpl in Hin.
  injection Hin as <- <- <- <- <-.
  destruct o; [done | |].
  - do 2 eexists. split; [by apply RunOnDevice_NHWC|].
    split; [by apply RunOnDevice_NHWC|].
    unfold outputs_of. simpl.
    by rewrite (position_all_data N C H W _ q1 q2).
  - do 2 eexists. split; [by apply RunOnDevice_NCHW|].
    split; [by apply RunOnDevice_NCHW|].
    unfold outputs_of. simpl.
    by rewrite (propagate_all_data N C H W _ q1 q2).
Qed.

(** X8: [biasGrad] and [scaleGrad] do not depend on [scale]: two
    well-formed calls that agree on the four other inputs return the same
    two vectors. *)
Theorem scale_not_in_reductions (uninit1 uninit2 : nat -> nat -> F)
    (dchecks1 dchecks2 : bool) (o : StorageOrder) (N C H W : nat)
    (st1 st2 : OpState F) :
  o <> UNKNOWN ->
  WellFormed o N C H W st1 -> WellFormed o N C H W st2 ->
  INPUT st1 = INPUT st2 -> OUTPUT_GRAD st1 = OUTPUT_GRAD st2 ->
  SAVED_MEAN st1 = SAVED_MEAN st2 ->
  SAVED_INV_VAR st1 = SAVED_INV_VAR st2 ->
  exists r1 r2,
    RunOnDevice uninit1 dchecks1 o st1 = Returned true r1
    /\ RunOnDevice uninit2 dchecks2 o st2 = Returned true r2
    /\ BIAS_GRAD r1 = BIAS_GRAD r2
    /\ SCALE_GRAD r1 = SCALE_GRAD r2.
Proof.
  intros Ho wf1 wf2 HX HdY HM HIV.
  destruct st1 as [X1 S1 dY1 M1 IV1 a1 b1 c1 q1].
  destruct st2 as [X2 S2 dY2 M2 IV2 a2 b2 c2 q2].
  simpl in HX, HdY, HM, HIV. subst.
  destruct o; [done | |].
  - do 2 eexists. split; [by apply RunOnDevice_NHWC|].
    split; [by apply RunOnDevice_NHWC|]. simpl.
    unfold position_all. rewrite !position_fold. done.
  - do 2 eexists. split; [by apply RunOnDevice_NCHW|].
    split; [by apply RunOnDevice_NCHW|]. done.
Qed.
End Dependence.

Lemma Qc_of_int_plus (a b : Z) :
  Q2Qc (inject_Z (a + b)) = Qcplus (Q2Qc (inject_Z a)) (Q2Qc (inject_Z b)).
Proof.
  apply Qc_is_canon. unfold Qcplus, Q2Qc. simpl.
  rewrite !Qred_correct. unfold Qeq, inject_Z, Qplus. simpl. lia.
Qed.

#[global] Instance Rational_embedding : IntEmbedding Qc.
Proof.
  split.
  - exact Qc_of_int_plus.
  - reflexivity.
Qed.

(** ** Algebra of the gradient *)

Section Algebra.
Context {F : Type} {arith : Arith F} {exact : ExactArith F}.
Add Ring F_ring_algebra : exact_ring.

Lemma big_sum_plus (n : nat) (f g : nat -> F) :
  big_sum n (fun i => (f i + g i)%F) = (big_sum n f + big_sum n g)%F.
Proof.
  induction n as [|n IH]; simpl; [ring|]. rewrite IH. ring.
Qed.

Lemma sum_nhw_combine (N H W : nat) (a b : F)
    (f g : nat -> nat -> nat -> F) :
  sum_nhw N H W (fun n h w => (a * f n h w + b * g n h w)%F)
  = (a * sum_nhw N H W f + b * sum_nhw N H W g)%F.
Proof.
  unfold sum_nhw.
  rewrite !big_sum_scale, <- big_sum_plus.
  apply big_sum_ext. intros n _.
  rewrite !big_sum_scale, <- big_sum_plus.
  apply big_sum_ext. intros h _.
  rewrite !big_sum_scale, <- big_sum_plus. done.
Qed.

Lemma big_sum_const {embedding : IntEmbedding F} (n : nat) (b : F) :
  big_sum n (fun _ => b) = (of_int (Z.of_nat n) * b)%F.
Proof.
  assert (of_int 0 = 0%F :> F) as H0.
  { pose proof (of_int_add 0 0) as Hadd.
    change (of_int 0 = (of_int 0 + of_int 0)%F :> F) in Hadd.
    transitivity ((of_int 0 + of_int 0) - of_int 0)%F; [ring|].
    rewrite <- Hadd. ring. }
  induction n as [|n IH]; simpl big_sum.
  - change (Z.of_nat 0) with 0%Z. rewrite H0. ring.
  - rewrite IH, Nat2Z.inj_succ, <- Z.add_1_r, of_int_add, of_int_one. ring.
Qed.

Lemma sum_nhw_const {embedding : IntEmbedding F} (N H W : nat) (b : F) :
  sum_nhw N H W (fun _ _ _ => b) = (of_int (Z.of_nat (N * H * W)) * b)%F.
Proof.
  unfold sum_nhw.
  rewrite (big_sum_ext N _ (fun _ => (of_int (Z.of_nat H)
                                      * (of_int (Z.of_nat W) * b))%F)).
  - rewrite big_sum_const, of_int_NHW. ring.
  - intros n _.
    rewrite (big_sum_ext H _ (fun _ => (of_int (Z.of_nat W) * b)%F)).
    + apply big_sum_const.
    + intros h _. apply big_sum_const.
Qed.

(** X9: the same logical tensors in the two layouts give the same input
    gradient, element by element. *)
Theorem inputGrad_layout_invariant (uninit1 uninit2 : nat -> nat -> F)
    (dchecks1 dchecks2 : bool) (N C H W : nat) (st1 st2 : OpState F) :
  WellFormed NCHW N C H W st1 -> WellFormed NHWC N C H W st2 ->
  (forall n c h w, n < N -> c < C -> h < H -> w < W ->
     elem NCHW C H W (data (INPUT st1)) n c h w
     = elem NHWC C H W (data (INPUT st2)) n c h w) ->
  (forall n c h w, n < N -> c < C -> h < H -> w < W ->
     elem NCHW C H W (data (OUTPUT_GRAD st1)) n c h w
     = elem NHWC C H W (data (OUTPUT_GRAD st2)) n c h w) ->
  data (SCALE st1) = data (SCALE st2) ->
  data (SAVED_MEAN st1) = data (SAVED_MEAN st2) ->
  data (SAVED_INV_VAR st1) = data (SAVED_INV_VAR st2) ->
  exists r1 r2,
    RunOnDevice uninit1 dchecks1 NCHW st1 = Returned true r1
    /\ RunOnDevice uninit2 dchecks2 NHWC st2 = Returned true r2
    /\ forall n c h w, n < N -> c < C -> h < H -> w < W ->
         elem NCHW C H W (data (INPUT_GRAD r1)) n c h w
         = elem NHWC C H W (data (INPUT_GRAD r2)) n c h w.
Proof.
  intros wf1 wf2 HX HdY Hscale Hmean Hinv.
  destruct (computed uninit1 dchecks1 NCHW N C H W st1) as (r1 & Hrun1 & Hc1);
    [done | done |].
  destruct (computed uninit2 dchecks2 NHWC N C H W st2) as (r2 & Hrun2 & Hc2);
    [done | done |].
  destruct Hc1 as [_ _ _ _ _ _ _ Hbias1 Hscale1 Hgrad1].
  destruct Hc2 as [_ _ _ _ _ _ _ Hbias2 Hscale2 Hgrad2].
  exists r1, r2. do 2 (split; [done|]).
  intros n c h w Hn Hc Hh Hw.
  rewrite Hgrad1, Hgrad2 by done. unfold inputGrad_spec.
  rewrite Hbias1, Hbias2, Hscale1, Hscale2 by done.
  assert (biasGrad_spec NCHW N C H W (data (OUTPUT_GRAD st1)) c
          = biasGrad_spec NHWC N C H W (data (OUTPUT_GRAD st2)) c) as ->.
  { unfold biasGrad_spec. apply sum_nhw_ext.
    intros n' h' w' Hn' Hh' Hw'. by apply HdY. }
  assert (scaleGrad_spec NCHW N C H W (data (INPUT st1))
            (data (OUTPUT_GRAD st1)) (data (SAVED_MEAN st1))
            (data (SAVED_INV_VAR st1)) c
          = scaleGrad_spec NHWC N C H W (data (INPUT st2))
              (data (OUTPUT_GRAD st2)) (data (SAVED_MEAN st2))
              (data (SAVED_INV_VAR st2)) c) as ->.
  { unfold scaleGrad_spec. apply sum_nhw_ext.
    intros n' h' w' Hn' Hh' Hw'. by rewrite HX, HdY, Hmean, Hinv. }
  by rewrite HX, HdY, Hscale, Hmean, Hinv.
Qed.

(** X10: the three gradients are linear in the output gradient: if
    [outputGrad3 = a * outputGrad1 + b * outputGrad2] element by element
    and the other inputs are shared, then each of [biasGrad], [scaleGrad]
    and [inputGrad] of the third call is [a] times that of the first plus
    [b] times that of the second. *)
Theorem linear_in_outputGrad (uninit : nat -> nat -> F) (dchecks : bool)
    (o : StorageOrder) (N C H W : nat) (a b : F) (st1 st2 st3 : OpState F) :
  o <> UNKNOWN ->
  WellFormed o N C H W st1 -> WellFormed o N C H W st2 ->
  WellFormed o N C H W st3 ->
  data (INPUT st1) = data (INPUT st3) ->
  data (INPUT st2) = data (INPUT st3) ->
  data (SCALE st1) = data (SCALE st3) ->
  data (SCALE st2) = data (SCALE st3) ->
  data (SAVED_MEAN st1) = data (SAVED_MEAN st3) ->
  data (SAVED_MEAN st2) = data (SAVED_MEAN st3) ->
  data (SAVED_INV_VAR st1) = data (SAVED_INV_VAR st3) ->
  data (SAVED_INV_VAR st2) = data (SAVED_INV_VAR st3) ->
  (forall p, p < N * C * H * W ->
     data (OUTPUT_GRAD st3) !!! p
     = (a * data (OUTPUT_GRAD st1) !!! p
        + b * data (OUTPUT_GRAD st2) !!! p)%F) ->
  exists r1 r2 r3,
    RunOnDevice uninit dchecks o st1 = Returned true r1
    /\ RunOnDevice uninit dchecks o st2 = Returned true r2
    /\ RunOnDevice uninit dchecks o st3 = Returned true r3
    /\ (forall c, c < C ->
          data (BIAS_GRAD r3) !!! c
          = (a * data (BIAS_GRAD r1) !!! c
             + b * data (BIAS_GRAD r2) !!! c)%F
          /\ data (SCALE_GRAD r3) !!! c
             = (a * data (SCALE_GRAD r1) !!! c
                + b * data (SCALE_GRAD r2) !!! c)%F)
    /\ (forall p, p < N * C * H * W ->
          data (INPUT_GRAD r3) !!! p
          = (a * data (INPUT_GRAD r1) !!! p
             + b * data (INPUT_GRAD r2) !!! p)%F).
Proof.
  intros Ho wf1 wf2 wf3 HX1 HX2 HS1 HS2 HM1 HM2 HI1 HI2 HdY.
  destruct (computed uninit dchecks o N C H W st1 Ho wf1)
    as (r1 & Hrun1 & Hc1).
  destruct (computed uninit dchecks o N C H W st2 Ho wf2)
    as (r2 & Hrun2 & Hc2).
  destruct (computed uninit dchecks o N C H W st3 Ho wf3)
    as (r3 & Hrun3 & Hc3).
  destruct Hc1 as [_ _ _ _ _ _ _ Hbias1 Hscale1 Hgrad1].
  destruct Hc2 as [_ _ _ _ _ _ _ Hbias2 Hscale2 Hgrad2].
  destruct Hc3 as [_ _ _ _ _ _ _ Hbias3 Hscale3 Hgrad3].
  assert (forall n c h w, n < N -> c < C -> h < H -> w < W ->
            elem o C H W (data (OUTPUT_GRAD st3)) n c h w
            = (a * elem o C H W (data (OUTPUT_GRAD st1)) n c h w
               + b * elem o C H W (data (OUTPUT_GRAD st2)) n c h w)%F)
    as Helem.
  { intros n c h w Hn Hc Hh Hw. unfold elem. apply HdY. by apply offset_lt. }
  assert (forall c, c < C ->
            data (BIAS_GRAD r3) !!! c
            = (a * data (BIAS_GRAD r1) !!! c
               + b * data (BIAS_GRAD r2) !!! c)%F
            /\ data (SCALE_GRAD r3) !!! c
               = (a * data (SCALE_GRAD r1) !!! c
                  + b * data (SCALE_GRAD r2) !!! c)%F) as Hsums.
  { intros c Hc. split.
    - rewrite Hbias1, Hbias2, Hbias3 by done. unfold biasGrad_spec.
      rewrite <- sum_nhw_combine. apply sum_nhw_ext.
      intros n h w Hn Hh Hw. by apply Helem.
    - rewrite Hscale1, Hscale2, Hscale3 by done. unfold scaleGrad_spec.
      rewrite <- sum_nhw_combine. apply sum_nhw_ext.
      intros n h w Hn Hh Hw.
      rewrite Helem, HX1, HX2, HM1, HM2, HI1, HI2 by done. ring. }
  exists r1, r2, r3. do 4 (split; [done|]).
  intros p Hp.
  destruct (offset_onto o N C H W p Hp)
    as (n & c & h & w & Hn & Hc & Hh & Hw & <-).
  fold (elem o C H W (data (INPUT_GRAD r1)) n c h w).
  fold (elem o C H W (data (INPUT_GRAD r2)) n c h w).
  fold (elem o C H W (data (INPUT_GRAD r3)) n c h w).
  rewrite Hgrad1, Hgrad2, Hgrad3 by done. unfold inputGrad_spec.
  destruct (Hsums c Hc) as [-> ->].
  rewrite Helem, HX1, HX2, HS1, HS2, HM1, HM2, HI1, HI2 by done. ring.
Qed.

(** X11: when the saved mean of channel [c] is the mean of the activation
    over that channel (the deviations sum to zero), the input gradient of
    the channel sums to zero. *)
Theorem inputGrad_sums_to_zero {embedding : IntEmbedding F}
    (uninit : nat -> nat -> F) (dchecks : bool) (o : StorageOrder)
    (N C H W : nat) (st : OpState F) (c : nat) :
  o <> UNKNOWN -> WellFormed o N C H W st -> c < C ->
  sum_nhw N H W
    (fun n h w => (elem o C H W (data (INPUT st)) n c h w
                   - data (SAVED_MEAN st) !!! c)%F) = 0%F ->
  exists st',
    RunOnDevice uninit dchecks o st = Returned true st'
    /\ sum_nhw N H W
         (fun n h w => elem o C H W (data (INPUT_GRAD st')) n c h w) = 0%F.
Proof.
  intros Ho wf Hc Hmean.
  destruct (computed uninit dchecks o N C H W st Ho wf) as (st' & Hrun & Hcomp).
  destruct Hcomp as [_ _ _ _ _ _ _ Hbias Hscale Hgrad].
  exists st'. split; [done|].
  set (M := of_int (Z.of_nat (N * H * W))).
  set (K := (data (SCALE st) !!! c * data (SAVED_INV_VAR st) !!! c / M)%F).
  set (B := data (BIAS_GRAD st') !!! c).
  set (S := data (SCALE_GRAD st') !!! c).
  set (iv := data (SAVED_INV_VAR st) !!! c).
  rewrite (sum_nhw_ext N H W _
    (fun n h w =>
       ((K * M) * elem o C H W (data (OUTPUT_GRAD st)) n c h w
        + fone * (fopp (K * iv * S)
                    * (elem o C H W (data (INPUT st)) n c h w
                       - data (SAVED_MEAN st) !!! c)
                  + fone * fopp (K * B)))%F)).
  2:{ intros n h w Hn Hh Hw. rewrite Hgrad by done.
      unfold inputGrad_spec. fold M K B S iv. ring. }
  rewrite sum_nhw_combine, sum_nhw_combine, Hmean, sum_nhw_const.
  fold M. fold (biasGrad_spec o N C H W (data (OUTPUT_GRAD st)) c).
  rewrite <- Hbias by done. fold B. ring.
Qed.
End Algebra.

(** * Properties of the gradient maker *)

Section MakerFacts.
Import GradientMaker.
Variables GI GO : nat -> option string.
Variable def_ : OperatorDef.

Lemma ENFORCE_EQ_Some (a b : nat) : ENFORCE_EQ a b = Some () <-> a = b.
Proof.
  unfold ENFORCE_EQ. destruct (a =? b) eqn:Hab.
  - apply Nat.eqb_eq in Hab. done.
  - apply Nat.eqb_neq in Hab. split; [done | by intros ?].
Qed.

Lemma lookup_is_Some_5 (l : list string) (i : nat) :
  length l = 5 -> i < 5 -> is_Some (l !! i).
Proof. intros Hl Hi. apply lookup_lt_is_Some. lia. Qed.

(** X12: every definition the maker returns is a single
    [SpatialBNGradient] with five inputs and three outputs, as the schema
    of that operator asks. *)
Theorem gradient_def_meets_schema (defs : list OperatorDef) :
  GetGradientDefs GI GO def_ = Some defs ->
  exists d, defs = [d] /\ op_type d = "SpatialBNGradient"%string
            /\ SpatialBNGradient_schema d.
Proof.
  unfold GetGradientDefs. intros Hdefs.
  destruct (is_test_of def_) as [t|]; simpl in Hdefs; [|done].
  destruct (GI 0) as [gi0|]; simpl in Hdefs; [|done].
  destruct (GI 1) as [gi1|]; simpl in Hdefs; [|done].
  destruct (GI 2) as [gi2|]; simpl in Hdefs; [|done].
  destruct t.
  - destruct (ENFORCE_EQ _ 5); simpl in Hdefs; [|done].
    destruct (ENFORCE_EQ _ 1); simpl in Hdefs; [|done].
    destruct (I def_ 0), (I def_ 1), (GO 0), (I def_ 3), (I def_ 4);
      simpl in Hdefs; try done.
    injection Hdefs as <-. eexists. by repeat split.
  - destruct (ENFORCE_EQ (length (op_input def_)) 5); simpl in Hdefs;
      [|done].
    destruct (ENFORCE_EQ _ 5); simpl in Hdefs; [|done].
    destruct (I def_ 0), (I def_ 1), (GO 0), (O def_ 3), (O def_ 4);
      simpl in Hdefs; try done.
    injection Hdefs as <-. eexists. by repeat split.
Qed.

(** X13: the maker returns exactly when [is_test] can be read, the forward
    definition has five inputs and, in test mode, one output, otherwise
    five, and the helpers name the gradients of inputs 0 to 2 and of
    output 0; in every other case it throws. *)
Theorem gradient_def_exists_iff :
  is_Some (GetGradientDefs GI GO def_) <->
  exists t, is_test_of def_ = Some t
            /\ length (op_input def_) = 5
            /\ length (op_output def_) = (if t then 1 else 5)
            /\ is_Some (GI 0) /\ is_Some (GI 1) /\ is_Some (GI 2)
            /\ is_Some (GO 0).
Proof.
  unfold GetGradientDefs. split.
  - intros [defs Hdefs].
    destruct (is_test_of def_) as [t|]; simpl in Hdefs; [|done].
    destruct (GI 0) as [gi0|]; simpl in Hdefs; [|done].
    destruct (GI 1) as [gi1|]; simpl in Hdefs; [|done].
    destruct (GI 2) as [gi2|]; simpl in Hdefs; [|done].
    exists t. destruct t.
    + destruct (ENFORCE_EQ _ 5) as [[]|] eqn:H5; simpl in Hdefs; [|done].
      destruct (ENFORCE_EQ _ 1) as [[]|] eqn:H1; simpl in Hdefs; [|done].
      apply ENFORCE_EQ_Some in H5, H1.
      destruct (I def_ 0), (I def_ 1), (GO 0); simpl in Hdefs; try done;
        by repeat split.
    + destruct (ENFORCE_EQ (length (op_input def_)) 5) as [[]|] eqn:H5;
        simpl in Hdefs; [|done].
      destruct (ENFORCE_EQ (length (op_output def_)) 5) as [[]|] eqn:H1;
        simpl in Hdefs; [|done].
      apply ENFORCE_EQ_Some in H5, H1.
      destruct (I def_ 0), (I def_ 1), (GO 0); simpl in Hdefs; try done;
        by repeat split.
  - intros (t & -> & Hin & Hout & [gi0 ->] & [gi1 ->] & [gi2 ->] & [go0 ->]).
    simpl.
    rewrite (proj2 (ENFORCE_EQ_Some _ 5) Hin). simpl.
    destruct (lookup_is_Some_5 _ 0 Hin) as [i0 Hi0]; [lia|].
    destruct (lookup_is_Some_5 _ 1 Hin) as [i1 Hi1]; [lia|].
    destruct (lookup_is_Some_5 _ 3 Hin) as [i3 Hi3]; [lia|].
    destruct (lookup_is_Some_5 _ 4 Hin) as [i4 Hi4]; [lia|].
    unfold I, O. rewrite Hi0, Hi1. destruct t.
    + rewrite (proj2 (ENFORCE_EQ_Some _ 1) Hout). simpl.
      rewrite Hi3, Hi4. done.
    + rewrite (proj2 (ENFORCE_EQ_Some _ 5) Hout). simpl.
      destruct (lookup_is_Some_5 _ 3 Hout) as [o3 ->]; [lia|].
      destruct (lookup_is_Some_5 _ 4 Hout) as [o4 ->]; [lia|].
      done.
Qed.

(** X14: the gradient operator reads [X], [scale] and the gradient of
    output 0, then the statistics: inputs 3 and 4 of the forward operator
    in test mode, its outputs 3 and 4 otherwise; it writes the gradients of
    inputs 0, 1 and 2.  The forward bias (input 2) is not read. *)
Theorem gradient_def_wiring (defs : list OperatorDef) :
  GetGradientDefs GI GO def_ = Some defs ->
  exists t d, is_test_of def_ = Some t /\ defs = [d]
    /\ Some <$> op_input d
       = [op_input def_ !! 0; op_input def_ !! 1; GO 0;
          (if t then op_input def_ else op_output def_) !! 3;
          (if t then op_input def_ else op_output def_) !! 4]
    /\ Some <$> op_output d = [GI 0; GI 1; GI 2].
Proof.
  unfold GetGradientDefs. intros Hdefs.
  destruct (is_test_of def_) as [t|]; simpl in Hdefs; [|done].
  destruct (GI 0) as [gi0|]; simpl in Hdefs; [|done].
  destruct (GI 1) as [gi1|]; simpl in Hdefs; [|done].
  destruct (GI 2) as [gi2|]; simpl in Hdefs; [|done].
  exists t. unfold I, O in Hdefs. destruct t.
  - destruct (ENFORCE_EQ _ 5); simpl in Hdefs; [|done].
    destruct (ENFORCE_EQ _ 1); simpl in Hdefs; [|done].
    destruct (op_input def_ !! 0), (op_input def_ !! 1), (GO 0),
      (op_input def_ !! 3), (op_input def_ !! 4); simpl in Hdefs; try done.
    injection Hdefs as <-. eexists. by repeat split.
  - destruct (ENFORCE_EQ (length (op_input def_)) 5); simpl in Hdefs;
      [|done].
    destruct (ENFORCE_EQ _ 5); simpl in Hdefs; [|done].
    destruct (op_input def_ !! 0), (op_input def_ !! 1), (GO 0),
      (op_output def_ !! 3), (op_output def_ !! 4); simpl in Hdefs;
      try done.
    injection Hdefs as <-. eexists. by repeat split.
Qed.
End MakerFacts.

(** * The further properties at concrete inputs *)

Lemma returned_shapes_witness :
  exists st', shaped_like_inputs Examples.sentinel st'.
Proof.
  eexists.
  apply (returned_shapes Examples.junk true NCHW true Examples.sentinel).
  vm_compute. reflexivity.
Defined.

Lemma low_rank_unchecked_witness :
  RunOnDevice Examples.junk false NCHW MoreExamples.rank2 = Undefined.
Proof. apply low_rank_unchecked. vm_compute. lia. Defined.

Lemma short_scale_unchecked_witness :
  RunOnDevice Examples.junk false NCHW MoreExamples.short_scale = Undefined.
Proof.
  apply (short_scale_unchecked Examples.junk NCHW 1 2 1 1).
  - reflexivity.
  - vm_compute. lia.
Defined.

Lemma short_outputGrad_witness :
  RunOnDevice Examples.junk true NHWC MoreExamples.short_grad = Undefined.
Proof.
  apply (short_outputGrad Examples.junk true NHWC 2 1 1 1).
  - discriminate.
  - reflexivity.
  - reflexivity.
  - by vm_compute.
  - by vm_compute.
  - by vm_compute.
  - vm_compute. lia.
Defined.

Lemma outputs_from_inputs_witness :
  exists r1 r2,
    RunOnDevice Examples.junk true NCHW Examples.sentinel = Returned true r1
    /\ RunOnDevice (fun _ _ => Binary32.of_Z 3) false NCHW
         (Examples.numerical (Examples.tensor [] []) (Examples.tensor [] [])
            (Examples.tensor [] []) 4) = Returned true r2
    /\ outputs_of r1 = outputs_of r2.
Proof.
  apply (outputs_from_inputs _ _ _ _ NCHW 2 1 1 1).
  - discriminate.
  - split; try reflexivity; by vm_compute.
  - reflexivity.
Defined.

Lemma scale_not_in_reductions_witness :
  exists r1 r2,
    RunOnDevice Examples.junk true NHWC Examples.sentinel = Returned true r1
    /\ RunOnDevice Examples.junk true NHWC MoreExamples.other_scale
       = Returned true r2
    /\ BIAS_GRAD r1 = BIAS_GRAD r2
    /\ SCALE_GRAD r1 = SCALE_GRAD r2.
Proof.
  apply (scale_not_in_reductions _ _ _ _ NHWC 2 1 1 1).
  - discriminate.
  - split; try reflexivity; by vm_compute.
  - split; try reflexivity; by vm_compute.
  - reflexivity.
  - reflexivity.
  - reflexivity.
  - reflexivity.
Defined.

Lemma inputGrad_layout_invariant_witness :
  exists r1 r2,
    RunOnDevice Examples.qjunk true NCHW Examples.qmajor = Returned true r1
    /\ RunOnDevice Examples.qjunk true NHWC Examples.qminor = Returned true r2
    /\ forall n c h w, n < 1 -> c < 2 -> h < 2 -> w < 1 ->
         elem NCHW 2 2 1 (data (INPUT_GRAD r1)) n c h w
         = elem NHWC 2 2 1 (data (INPUT_GRAD r2)) n c h w.
Proof.
  apply (inputGrad_layout_invariant Examples.qjunk Examples.qjunk true true
           1 2 2 1).
  - split; try reflexivity; by vm_compute.
  - split; try reflexivity; by vm_compute.
  - intros n c h w Hn Hc Hh Hw.
    destruct n as [|n]; [|lia]. destruct w as [|w]; [|lia].
    destruct c as [|[|c]]; [| |lia]; destruct h as [|[|h]];
      try lia; reflexivity.
  - intros n c h w Hn Hc Hh Hw.
    destruct n as [|n]; [|lia]. destruct w as [|w]; [|lia].
    destruct c as [|[|c]]; [| |lia]; destruct h as [|[|h]];
      try lia; reflexivity.
  - reflexivity.
  - reflexivity.
  - reflexivity.
Defined.

Lemma linear_in_outputGrad_witness :
  exists r1 r2 r3,
    RunOnDevice Examples.qjunk true NCHW Examples.qnumerical
    = Returned true r1
    /\ RunOnDevice Examples.qjunk true NCHW Examples.qzero_grad
       = Returned true r2
    /\ RunOnDevice Examples.qjunk true NCHW Examples.qnumerical
       = Returned true r3
    /\ forall p, p < 2 * 1 * 1 * 1 ->
         data (INPUT_GRAD r3) !!! p
         = (fone * data (INPUT_GRAD r1) !!! p
            + fone * data (INPUT_GRAD r2) !!! p)%F.
Proof.
  destruct (linear_in_outputGrad Examples.qjunk true NCHW 2 1 1 1 fone fone
              Examples.qnumerical Examples.qzero_grad Examples.qnumerical)
    as (r1 & r2 & r3 & H1 & H2 & H3 & _ & Hgrad).
  - discriminate.
  - split; try reflexivity; by vm_compute.
  - split; try reflexivity; by vm_compute.
  - split; try reflexivity; by vm_compute.
  - reflexivity.
  - reflexivity.
  - reflexivity.
  - reflexivity.
  - reflexivity.
  - reflexivity.
  - reflexivity.
  - reflexivity.
  - intros p Hp. destruct p as [|[|p]]; [| |simpl in Hp; lia];
      apply Qc_is_canon; reflexivity.
  - exists r1, r2, r3. by repeat split.
Defined.

Lemma inputGrad_sums_to_zero_witness :
  exists st',
    RunOnDevice Examples.qjunk true NCHW Examples.qnumerical
    = Returned true st'
    /\ sum_nhw 2 1 1
         (fun n h w => elem NCHW 1 1 1 (data (INPUT_GRAD st')) n 0 h w)
       = 0%F.
Proof.
  apply (inputGrad_sums_to_zero Examples.qjunk true NCHW 2 1 1 1).
  - discriminate.
  - split; try reflexivity; by vm_compute.
  - lia.
  - apply Qc_is_canon. reflexivity.
Defined.

Lemma gradient_def_meets_schema_witness :
  exists d,
    [GradientMaker.mkOperatorDef "SpatialBNGradient" EmptyString
       ["x"; "scale"; "y_grad"; "saved_mean"; "saved_var"]%string
       ["x_grad"; "scale_grad"; "bias_grad"]%string []] = [d]
    /\ GradientMaker.op_type d = "SpatialBNGradient"%string
    /\ GradientMaker.SpatialBNGradient_schema d.
Proof.
  apply (gradient_def_meets_schema
           (MoreExamples.grad_of_input MoreExamples.training_def)
           (MoreExamples.grad_of_output MoreExamples.training_def)
           MoreExamples.training_def).
  reflexivity.
Defined.

Lemma gradient_def_wiring_witness :
  exists t d,
    GradientMaker.is_test_of MoreExamples.test_def = Some t
    /\ [GradientMaker.mkOperatorDef "SpatialBNGradient" EmptyString
          ["x"; "scale"; "y_grad"; "mean"; "var"]%string
          ["x_grad"; "scale_grad"; "bias_grad"]%string []] = [d]
    /\ Some <$> GradientMaker.op_input d
       = [GradientMaker.op_input MoreExamples.test_def !! 0;
          GradientMaker.op_input MoreExamples.test_def !! 1;
          MoreExamples.grad_of_output MoreExamples.test_def 0;
          (if t then GradientMaker.op_input MoreExamples.test_def
           else GradientMaker.op_output MoreExamples.test_def) !! 3;
          (if t then GradientMaker.op_input MoreExamples.test_def
           else GradientMaker.op_output MoreExamples.test_def) !! 4]
    /\ Some <$> GradientMaker.op_output d
       = [MoreExamples.grad_of_input MoreExamples.test_def 0;
          MoreExamples.grad_of_input MoreExamples.test_def 1;
          MoreExamples.grad_of_input MoreExamples.test_def 2].
Proof.
  apply (gradient_def_wiring
           (MoreExamples.grad_of_input MoreExamples.test_def)
           (MoreExamples.grad_of_output MoreExamples.test_def)
           MoreExamples.test_def).
  reflexivity.
Defined.
